(** * The factor analytics engine of factor-platform-web

    A shallow embedding of the pure functions of [src/app/page.tsx] (and of
    its near-verbatim copies under [src/unnamed]): the cumulative curve
    builder [toCum], the drawdown walk [maxDrawdownFromReturns], the metrics
    calculator [calcMetricsFromDailyRet], the date range filter
    [clipByRange], the event alignment inside [gwSignalTraces] and the rank
    heatmap encoder of [Home]; then of what surrounds them: the formatting
    helpers, the colour scale [makeDiscreteColorscale], the selections and
    the two loading effects of [Home], [chartData], the metrics
    [calcMetrics] of the factor page, its [safeName], and the manifest
    readers [listFactorsFromGithub] and [generateStaticParams].

    Effects.  An effect of [Home] is embedded as the function from what
    its requests yield (a value, or nothing when the request throws) to the
    state that it sets.

    Numbers.  The numeric code is embedded once, over an interface
    [Number] that lists the JavaScript operations the source uses.  Two
    carriers implement it: [binary64], the IEEE 754 doubles a JavaScript
    engine computes with (Rocq's primitive floats), and [Rnum], the exact
    real numbers that the formulas of the specification denote ("any finite
    real-valued input").  A statement proved over the interface holds on
    both; what the engine computes (a rounding, an overflow, NaN, [null])
    is proved on [binary64]; [Rnum] serves for bounds and orders of values
    in exact arithmetic, where an equality or a test against zero would
    say nothing of the doubles.

    The host.  What the source calls and the repository does not define is
    a parameter: the date parser behind [new Date(s)], the finite case of
    [Math.pow] (which ECMA-262 leaves to the implementation) and
    [Number::toString]. *)

From Stdlib Require Import ZArith List String Ascii Bool Lia Sorted.
From Stdlib Require Import Reals Lra.
From Stdlib Require Import Floats DecimalString.
From stdpp Require Import base option list gmap strings.

Set Warnings "-inexact-float,-register-all".

(** ** Numbers *)

(** The operations of a JavaScript [number] that the analytics code uses.
    [lit] embeds the integer literals ([0], [1], [2]) and array lengths. *)
Class Number (num : Type) : Type := {
  lit : Z -> num;
  num_add : num -> num -> num;     (* a + b *)
  num_sub : num -> num -> num;     (* a - b *)
  num_mul : num -> num -> num;     (* a * b *)
  num_div : num -> num -> num;     (* a / b *)
  Math_pow : num -> num -> num;    (* Math.pow(a, b) and a ** b *)
  Math_sqrt : num -> num;          (* Math.sqrt(a) *)
  Math_max : num -> num -> num;    (* Math.max(a, b) *)
  num_lt : num -> num -> bool;     (* a < b *)
  num_eq : num -> num -> bool      (* a === b *)
}.

Declare Scope js_scope.
Delimit Scope js_scope with js.
Notation "0" := (lit 0%Z) : js_scope.
Notation "1" := (lit 1%Z) : js_scope.
Notation "2" := (lit 2%Z) : js_scope.
Infix "+" := num_add : js_scope.
Infix "-" := num_sub : js_scope.
Infix "*" := num_mul : js_scope.
Infix "/" := num_div : js_scope.
Infix "**" := Math_pow (at level 30, right associativity) : js_scope.
Infix "<" := num_lt : js_scope.
Infix ">" := (fun a b => num_lt b a) (only parsing) : js_scope.
Infix "===" := num_eq (at level 70, no associativity) : js_scope.

(** ** Cumulative curve, drawdown and metrics (page.tsx, lines 40-43 and 103-133) *)

Section Metrics.
Context {num : Type} {N : Number num}.
Local Open Scope js_scope.

(** [retArr.map((r) => (v *= 1 + r))] with the captured variable [v]:
    the map threads [v] through the elements, left to right. *)
Fixpoint toCum_from (v : num) (retArr : list num) : list num :=
  match retArr with
  | [] => []
  | r :: rest => let v' := v * (1 + r) in v' :: toCum_from v' rest
  end.

(** [function toCum(retArr) { let v = 1; return retArr.map(...) }] *)
Definition toCum (retArr : list num) : list num := toCum_from 1 retArr.

(** The three variables of the loop of [maxDrawdownFromReturns]. *)
Record DrawdownState : Type := mkDD { dd_peak : num; dd_nav : num; dd_maxdd : num }.

(** One iteration of [for (const r of ret) { ... }]. *)
Definition drawdown_step (st : DrawdownState) (r : num) : DrawdownState :=
  let nav := dd_nav st * (1 + r) in
  let peak := if nav > dd_peak st then nav else dd_peak st in
  let dd := nav / peak - 1 in
  let maxdd := if dd < dd_maxdd st then dd else dd_maxdd st in
  mkDD peak nav maxdd.

Definition maxDrawdownFromReturns (ret : list num) : num :=
  dd_maxdd (fold_left drawdown_step ret (mkDD 1 1 0)).

Record MetricRow : Type := mkMetricRow {
  factor : string;
  ann_return : num;
  ann_vol : num;
  sharpe : option num;           (* number | null *)
  maxdd : num
}.

(** [calcMetricsFromDailyRet(factor, ret, rfAnnual, freq = 252)].  The
    default of [freq] is applied by the callers of this definition. *)
Definition calcMetricsFromDailyRet
    (factor : string) (ret : list num) (rfAnnual freq : num) : MetricRow :=
  if Nat.eqb (length ret) 0 then mkMetricRow factor 0 0 None 0 else
  let nav := fold_left (fun nav r => nav * (1 + r)) ret 1 in
  let n := lit (Z.of_nat (length ret)) in
  let ann_return := Math_pow nav (freq / n) - 1 in
  let mean := fold_left (fun a b => a + b) ret 0 / n in
  let var_ := fold_left (fun a r => a + (r - mean) ** 2) ret 0 / Math_max 1 (n - 1) in
  let ann_vol := Math_sqrt (var_ * freq) in
  let rfDaily := rfAnnual / freq in
  let ex := map (fun r => r - rfDaily) ret in
  let exMean := fold_left (fun a b => a + b) ex 0 / n in
  let exVar := fold_left (fun a r => a + (r - exMean) ** 2) ex 0 / Math_max 1 (n - 1) in
  let exVol := Math_sqrt (exVar * freq) in
  let sharpe := if exVol === 0 then None else Some ((exMean * freq) / exVol) in
  let maxdd := maxDrawdownFromReturns ret in
  mkMetricRow factor ann_return ann_vol sharpe maxdd.

End Metrics.

(** ** The carrier of a JavaScript engine: IEEE 754 binary64 *)

Module Binary64.
Local Open Scope float_scope.

(** The Number value of an integer literal or array length: the integer
    rounded to the nearest double. *)
Definition of_Z (k : Z) : float := SF2Prim (binary_normalize prec emax k 0 false).

(** "x is an integral Number": x = m * 2^e is finite and has no fraction. *)
Definition is_integral (x : float) : bool :=
  match Prim2SF x with
  | S754_zero _ => true
  | S754_finite _ m e =>
      (0 <=? e)%Z || (Z.pos m mod 2 ^ (- e) =? 0)%Z
  | _ => false
  end.

(** "x is an odd integral Number". *)
Definition is_odd_integral (x : float) : bool :=
  match Prim2SF x with
  | S754_finite _ m e =>
      if (0 <? e)%Z then false
      else (Z.pos m mod 2 ^ (- e) =? 0)%Z && Z.odd (Z.pos m / 2 ^ (- e))
  | _ => false
  end.

(** [Math.max(a, b)] (ECMA-262, Math.max): NaN if an argument is NaN,
    and +0 counts as larger than -0. *)
Definition float_max (a b : float) : float :=
  if is_nan a || is_nan b then nan
  else if a <? b then b
  else if b <? a then a
  else if get_sign a then b else a.

Section Exponentiate.
(** ECMA-262 fixes [Number::exponentiate] on the special values and
    leaves the finite case "implementation-approximated": that case is
    a parameter of the model. *)
Variable pow_approx : float -> float -> float.

Definition exponentiate (base exponent : float) : float :=
  if is_nan exponent then nan
  else if exponent =? 0 then 1
  else if is_nan base then nan
  else if base =? infinity then (if 0 <? exponent then infinity else 0)
  else if base =? neg_infinity then
    (if 0 <? exponent
     then (if is_odd_integral exponent then neg_infinity else infinity)
     else (if is_odd_integral exponent then neg_zero else 0))
  else if base =? 0 then
    (if get_sign base
     then (if 0 <? exponent
           then (if is_odd_integral exponent then neg_zero else 0)
           else (if is_odd_integral exponent then neg_infinity else infinity))
     else (if 0 <? exponent then 0 else infinity))
  else if exponent =? infinity then
    (if 1 <? abs base then infinity else if abs base =? 1 then nan else 0)
  else if exponent =? neg_infinity then
    (if 1 <? abs base then 0 else if abs base =? 1 then nan else infinity)
  else if (base <? 0) && negb (is_integral exponent) then nan
  else pow_approx base exponent.

(** The numbers of an engine whose [Math.pow] is [pow_approx] on the
    finite case. *)
Definition binary64 : Number float := {|
  lit := of_Z;
  num_add := PrimFloat.add;
  num_sub := PrimFloat.sub;
  num_mul := PrimFloat.mul;
  num_div := PrimFloat.div;
  Math_pow := exponentiate;
  Math_sqrt := PrimFloat.sqrt;
  Math_max := float_max;
  num_lt := PrimFloat.ltb;
  num_eq := PrimFloat.eqb
|}.
End Exponentiate.
End Binary64.

(** ** The carrier of the specification: exact real numbers *)

Module ExactReals.
Local Open Scope R_scope.

(** Real exponentiation: an iterated product for an integral exponent
    (as [x ** 2] in the variance), [exp (y * ln x)] otherwise.  The second
    case is the power of a positive base only: the statements below use it
    on a positive base, or on the exponent 2. *)
Definition Rpow (x y : R) : R :=
  if Req_dec_T (frac_part y) 0 then powerRZ x (Int_part y) else Rpower x y.

#[export] Instance Rnum : Number R := {|
  lit := IZR;
  num_add := Rplus;
  num_sub := Rminus;
  num_mul := Rmult;
  num_div := Rdiv;
  Math_pow := Rpow;
  Math_sqrt := R_sqrt.sqrt;
  Math_max := Rmax;
  num_lt := fun a b => if Rlt_dec a b then true else false;
  num_eq := fun a b => if Req_dec_T a b then true else false
|}.
End ExactReals.

(** ** The quantities the specification names *)

Section Statistics.
Context {num : Type} {N : Number num}.
Local Open Scope js_scope.

(** The sum of a series, accumulated from 0, and the product of a series,
    accumulated from the implicit value 1, both from left to right. *)
Definition sum (xs : list num) : num := fold_left num_add xs 0.
Definition product (xs : list num) : num := fold_left num_mul xs 1.

(** The growth factors [1 + r_j] of a return series. *)
Definition growth (rs : list num) : list num := map (fun r => 1 + r) rs.

(** The number of observations, as a number. *)
Definition count (xs : list num) : num := lit (Z.of_nat (length xs)).

Definition mean (xs : list num) : num := sum xs / count xs.

(** Sum of squared deviations from the mean. *)
Definition sumSquares (xs : list num) : num :=
  sum (map (fun x => (x - mean xs) ** 2) xs).

(** Sample variance with the Bessel divisor [max(1, n - 1)]. *)
Definition sampleVariance (xs : list num) : num :=
  sumSquares xs / Math_max 1 (count xs - 1).

(** The per-period excess returns [r_i - rf / freq]. *)
Definition excess (rs : list num) (rfAnnual freq : num) : list num :=
  map (fun r => r - rfAnnual / freq) rs.

(** The annualized volatility of a series as the calculator evaluates it:
    the variance is scaled by [freq] under the square root. *)
Definition annualizedVol (xs : list num) (freq : num) : num :=
  Math_sqrt (sampleVariance xs * freq).

Definition annualizedExcessVol (rs : list num) (rfAnnual freq : num) : num :=
  annualizedVol (excess rs rfAnnual freq) freq.
End Statistics.

(** ** The drawdown walk pass by pass, and the standard deviation *)

Section DrawdownWalk.
Context {num : Type} {N : Number num}.
Local Open Scope js_scope.




End DrawdownWalk.

(** "The curve never decreases", on binary64: each point compares as at
    most the next one.  No point of such a curve is NaN. *)
Definition ascending (curve : list float) : Prop :=
  Sorted (fun a b => PrimFloat.leb a b = true) curve.

(** In exact arithmetic: the walk of the drawdown pass by pass, and the
    sample standard deviation. *)
Module RealSpec.
Import ExactReals.
Local Open Scope R_scope.

(** The running peak of a curve that was restarted from [p]. *)
Fixpoint runningPeak (p : R) (curve : list R) : list R :=
  match curve with
  | [] => []
  | v :: rest => let p' := Rmax p v in p' :: runningPeak p' rest
  end.

(** The drawdown [NAV_i / peak_i - 1] at each step of the series. *)
Definition drawdowns (rs : list R) : list R :=
  zip_with (fun v p => v / p - 1) (toCum rs) (runningPeak 1 (toCum rs)).

(** The most negative value of a list of drawdowns, 0 when there is none. *)
Definition mostNegative (dds : list R) : R := fold_left Rmin dds 0.

(** The growth-of-1 curve with its implicit starting value. *)
Definition growthCurve (rs : list R) : list R := 1 :: toCum rs.

Definition nonDecreasing (curve : list R) : Prop := Sorted Rle curve.

(** The divisor [n - 1], clamped to 1 when [n = 1]. *)
Definition besselDivisor (n : nat) : R := if Nat.eqb n 1 then 1 else INR n - 1.

(** Sample standard deviation of a series. *)
Definition sampleStdDev (xs : list R) : R :=
  R_sqrt.sqrt (sumSquares xs / besselDivisor (length xs)).
End RealSpec.

(** ** Date range filter (page.tsx, lines 81-101) *)

Module Series.
(** The time value of a [Date]: milliseconds since the epoch, or NaN for
    an "Invalid Date". *)
Inductive TimeValue : Type := NaN_time | ms (t : Z).

Section ClipByRange.
(** [new Date(s).getTime()]: the host's date parser is not code of the
    repository, so every statement below holds for each parser. *)
Variable Date_getTime : string -> TimeValue.

(** The type of the slots of the [ret] array, and the value [undefined]
    that reading past the end of an array yields. *)
Context {V : Type} (undefined : V).

Record ReturnsResp : Type := mkReturnsResp {
  name : option string;
  factor : option string;
  dates : list string;
  ret : list V
}.

(** [function parseDate(s)]: a valid [Date], as its time value, or null. *)
Definition parseDate (s : string) : option Z :=
  match Date_getTime s with
  | NaN_time => None
  | ms t => Some t
  end.

(** One iteration of the loop of [clipByRange]; the state is
    [(outDates, outRet)] and [push] appends. *)
Definition clip_step (s e : Z) (d : ReturnsResp)
    (out : list string * list V) (i : nat) : list string * list V :=
  match dates d !! i with
  | None => out
  | Some date_i =>
      match parseDate date_i with
      | None => out                                        (* continue *)
      | Some di =>
          if (s <=? di)%Z && (di <=? e)%Z
          then (out.1 ++ [date_i], out.2 ++ [default undefined (ret d !! i)])
          else out
      end
  end.

Definition clipByRange (d : ReturnsResp) (start end_ : string) : ReturnsResp :=
  match parseDate start, parseDate end_ with
  | Some s, Some e =>
      let out := fold_left (clip_step s e d) (seq 0 (length (dates d))) ([], []) in
      mkReturnsResp (name d) (factor d) out.1 out.2      (* { ...d, dates, ret } *)
  | _, _ => d                                              (* if (!s || !e) return d *)
  end.

(** The observations of a series: each date with the slot of [ret] at
    the same index. *)
Definition observations (d : ReturnsResp) : list (string * V) :=
  imap (fun i date_i => (date_i, default undefined (ret d !! i))) (dates d).

(** "The date parses and lies in the closed interval [s, e]". *)
Definition inRange (s e : Z) (date_i : string) : bool :=
  match parseDate date_i with
  | None => false
  | Some di => (s <=? di)%Z && (di <=? e)%Z
  end.
End ClipByRange.

Arguments ReturnsResp : clear implicits.
Arguments mkReturnsResp {V}.
Arguments name {V}.
Arguments factor {V}.
Arguments dates {V}.
Arguments ret {V}.
End Series.

(** ** Event alignment (page.tsx, lines 262-290) *)

Module GlobalWave.
Import Series.
Local Open Scope string_scope.

(** An entry of [events] in a global-wave artifact; the fields [r_6m] and
    [r_12m] are not read by the alignment. *)
Record GwEvent : Type := mkGwEvent { type : string; date : string }.

(** The part of [GlobalWaveResp] the alignment reads: [events?]. *)
Record GlobalWaveResp : Type := mkGlobalWaveResp { events : option (list GwEvent) }.

Inductive Kind : Type := trough | peak.

(** An element of [eventPool]. *)
Record PoolEvent : Type := mkPoolEvent { kind : Kind; pdate : string }.

(** [Array.prototype.findIndex], with its sentinel -1. *)
Fixpoint findIndex_from {A : Type} (p : A -> bool) (l : list A) (i : Z) : Z :=
  match l with
  | [] => (-1)%Z
  | x :: rest => if p x then i else findIndex_from p rest (i + 1)%Z
  end.

Definition findIndex {A : Type} (p : A -> bool) (l : list A) : Z :=
  findIndex_from p l 0%Z.

(** [a >= b] on two strings: the order of their code units.  A string is
    held here as its bytes, whose order is that of the UTF-16 code units
    on ASCII text, which the calendar dates of the statements below are. *)
Definition string_ge (a b : string) : bool := String.leb b a.

(** The body of [for (const e of gwData[anyFactor].events || [])]. *)
Definition pool_step (pool : list PoolEvent) (e : GwEvent) : list PoolEvent :=
  if negb (String.eqb (date e) "")
  then if String.eqb (type e) "trough" then pool ++ [mkPoolEvent trough (date e)]
       else if String.eqb (type e) "peak" then pool ++ [mkPoolEvent peak (date e)]
       else pool
  else pool.

(** [eventPool]: the events of the first key of [gwData], which is given
    as the list of its entries in the order of [Object.keys]. *)
Definition eventPool (gwData : list (string * GlobalWaveResp)) : list PoolEvent :=
  match gwData with
  | [] => []
  | (anyFactor, resp) :: _ =>
      if negb (String.eqb anyFactor "")
      then match events resp with
           | Some evs => fold_left pool_step evs []
           | None => []
           end
      else []
  end.

Section Traces.
Context {num : Type} {N : Number num}.

(** The marker arrays of the loop over the pool; [x[idx]] and [y[idx]]
    are array reads, undefined ([None]) out of range. *)
Record Markers : Type := mkMarkers {
  peaksX : list (option string);
  peaksY : list (option num);
  troughX : list (option string);
  troughY : list (option num)
}.

Definition marker_step (x : list string) (y : list num) (m : Markers) (e : PoolEvent)
    : Markers :=
  let idx := findIndex (fun d => string_ge d (pdate e)) x in
  if (idx =? -1)%Z then m                                  (* continue *)
  else
    let i := Z.to_nat idx in
    match kind e with
    | peak => mkMarkers (peaksX m ++ [x !! i]) (peaksY m ++ [y !! i]) (troughX m) (troughY m)
    | trough => mkMarkers (peaksX m) (peaksY m) (troughX m ++ [x !! i]) (troughY m ++ [y !! i])
    end.

(** What [gwSignalTraces] returns, without the styling constants: the
    benchmark line, the two marker series and one vertical line per
    pooled event, at the event's own date. *)
Record SignalTraces : Type := mkSignalTraces {
  lineX : list string;
  lineY : list num;
  markers : Markers;
  shapes : list (Kind * string)
}.

Definition gwSignalTraces (benchSeries : option (ReturnsResp num))
    (gwData : list (string * GlobalWaveResp)) : option SignalTraces :=
  match benchSeries with
  | None => None
  | Some bench =>
      if Nat.eqb (length (dates bench)) 0 || Nat.eqb (length (ret bench)) 0 then None
      else
        let x := dates bench in
        let y := toCum (ret bench) in
        let pool := eventPool gwData in
        let m := fold_left (marker_step x y) pool (mkMarkers [] [] [] []) in
        Some (mkSignalTraces x y m (map (fun e => (kind e, pdate e)) pool))
  end.
End Traces.

(** *** Calendar dates in the format YYYY-MM-DD *)

Definition digitOf (c : ascii) : option Z :=
  let n := Z.of_N (N_of_ascii c) in
  if (48 <=? n)%Z && (n <=? 57)%Z then Some (n - 48)%Z else None.

(** The calendar date of a string of the form YYYY-MM-DD, as the number
    YYYYMMDD; the order of these numbers is the order of the calendar. *)
Definition isoDay (s : string) : option Z :=
  match s with
  | String y1 (String y2 (String y3 (String y4 (String h1
      (String m1 (String m2 (String h2 (String d1 (String d2 EmptyString))))))))) =>
      if Ascii.eqb h1 "-" && Ascii.eqb h2 "-" then
        y1 ← digitOf y1; y2 ← digitOf y2; y3 ← digitOf y3; y4 ← digitOf y4;
        m1 ← digitOf m1; m2 ← digitOf m2; d1 ← digitOf d1; d2 ← digitOf d2;
        Some (((((((y1 * 10 + y2) * 10 + y3) * 10 + y4) * 10 + m1) * 10 + m2) * 10 + d1) * 10 + d2)%Z
      else None
  | _ => None
  end.

Definition isIsoDate (s : string) : Prop := is_Some (isoDay s).

(** "The date [a] is on or before the date [b]." *)
Definition onOrBefore (a b : string) : Prop :=
  match isoDay a, isoDay b with
  | Some da, Some db => (da <= db)%Z
  | _, _ => False
  end.

(** "The date [a] is strictly before the date [b]." *)
Definition before (a b : string) : Prop :=
  match isoDay a, isoDay b with
  | Some da, Some db => (da < db)%Z
  | _, _ => False
  end.

#[export] Instance onOrBefore_dec (a b : string) : Decision (onOrBefore a b).
Proof. unfold onOrBefore. destruct (isoDay a), (isoDay b); apply _. Defined.

(** Ascending dates: each observation is on or before the next one. *)
Definition ascending (x : list string) : Prop := Sorted onOrBefore x.

(** An event of an artifact that follows its format: a calendar date and
    one of the two kinds. *)
Definition wellFormed (e : GwEvent) : Prop :=
  isIsoDate (date e) /\ (type e = "peak" \/ type e = "trough").

(** The pooled form of a well-formed event. *)
Definition poolOf (e : GwEvent) : PoolEvent :=
  mkPoolEvent (if String.eqb (type e) "peak" then peak else trough) (date e).

(** The alignment the specification describes: the first observation
    whose date is on or after the date of the event, with its index. *)
Definition firstOnOrAfter (x : list string) (eventDate : string) : option (nat * string) :=
  list_find (onOrBefore eventDate) x.

(** The marker of an event: the date of that observation and the value of
    the curve [y] at its index; none when no observation qualifies. *)
Definition aligned {num : Type} (x : list string) (y : list num) (eventDate : string)
    : option (string * option num) :=
  '(i, d) ← firstOnOrAfter x eventDate; Some (d, y !! i).

(** The markers of the events of one kind, in the order of the events. *)
Definition markersOf {num : Type} (ty : string) (x : list string) (y : list num)
    (evs : list GwEvent) : list (string * option num) :=
  omap (fun e => if String.eqb (type e) ty then aligned x y (date e) else None) evs.
End GlobalWave.

(** ** Rank heatmap encoder (page.tsx, lines 413-435; part_001, lines 560-594) *)

Module Heatmap.
Local Open Scope string_scope.

(** A value read from [ranked_returns]: a number, [null], or [undefined]
    when the read misses. *)
Inductive Cell : Type := Null | Undefined | Num (x : float).

(** The ranking artifact, as [Home] reads it. *)
Record HeatmapResp : Type := mkHeatmapResp {
  months : list string;
  ranked_factors : list (list string);
  ranked_returns : option (list (list Cell));
  factors : option (list string)
}.

(** *** The object [factorToCode]

    [const factorToCode = {}] is an ordinary object: besides its own
    properties it has the properties of [Object.prototype] (ECMA-262,
    20.1.3 and B.2.2). *)
Definition objectPrototypeKeys : list string :=
  ["constructor"; "hasOwnProperty"; "isPrototypeOf"; "propertyIsEnumerable";
   "toLocaleString"; "toString"; "valueOf"; "__proto__";
   "__defineGetter__"; "__defineSetter__"; "__lookupGetter__"; "__lookupSetter__"].

(** What a read [factorToCode[key]] yields when it is not [undefined]: a
    code that was stored, or a member inherited from the prototype. *)
Inductive Value : Type := Code (i : Z) | Inherited (key : string).

(** [factorToCode[key] = i].  The key [__proto__] is an accessor of the
    prototype whose setter ignores a number: nothing is stored. *)
Definition assign (o : gmap string Z) (key : string) (i : Z) : gmap string Z :=
  if String.eqb key "__proto__" then o else <[key := i]> o.

(** [factorToCode[key]]: the own property, else the inherited one, else
    [undefined]. *)
Definition get (o : gmap string Z) (key : string) : option Value :=
  match o !! key with
  | Some i => Some (Code i)
  | None => if bool_decide (key ∈ objectPrototypeKeys) then Some (Inherited key) else None
  end.

(** [factorList.forEach((f, i) => factorToCode[f] = i)] *)
Fixpoint forEach_assign (o : gmap string Z) (factorList : list string) (i : Z)
    : gmap string Z :=
  match factorList with
  | [] => o
  | f :: rest => forEach_assign (assign o f i) rest (i + 1)%Z
  end.

(** [Array.from(new Set(l))]: the elements of [l], each once, in the order
    of their first occurrence. *)
Fixpoint uniq_from (seen l : list string) : list string :=
  match l with
  | [] => []
  | f :: rest =>
      if bool_decide (f ∈ seen) then uniq_from seen rest
      else f :: uniq_from (f :: seen) rest
  end.

(** [heatmap.factors || Array.from(new Set(rankedFactors.flat()))] *)
Definition factorList (h : HeatmapResp) : list string :=
  match factors h with
  | Some fs => fs
  | None => uniq_from [] (concat (ranked_factors h))
  end.

Definition factorToCode (h : HeatmapResp) : gmap string Z :=
  forEach_assign ∅ (factorList h) 0.

(** *** Number.prototype.toFixed *)

Definition digitsOf (n : Z) : string := NilEmpty.string_of_uint (N.to_uint (Z.to_N n)).

Fixpoint zeros (k : nat) : string :=
  match k with
  | O => ""
  | S k' => String "0" (zeros k')
  end.

(** The decimal form of n / 10^f with f digits after the point. *)
Definition fixedPoint (n : Z) (f : nat) : string :=
  let m := digitsOf n in
  if Nat.eqb f 0 then m
  else
    let m := zeros (f + 1 - String.length m) ++ m in
    let k := String.length m in
    substring 0 (k - f) m ++ "." ++ substring (k - f) f m.

Section ToFixed.
(** [Number::toString], which [toFixed] falls back on from 1e21 on; not
    code of the repository. *)
Variable Number_toString : float -> string.

(** [x.toFixed(f)] (ECMA-262, 21.1.3.3): for a finite x below 1e21, the
    integer n for which n / 10^f - x is closest to zero, the larger n on a
    tie, printed with f digits after the point. *)
Definition toFixed (x : float) (f : nat) : string :=
  match Prim2SF x with
  | S754_nan => "NaN"
  | S754_infinity s => if s then "-Infinity" else "Infinity"
  | S754_zero _ => fixedPoint 0 f
  | S754_finite s m e =>
      let big := if (0 <=? e)%Z then (10 ^ 21 <=? Z.pos m * 2 ^ e)%Z
                 else (10 ^ 21 * 2 ^ (- e) <=? Z.pos m)%Z in
      if big then Number_toString x
      else
        let q := (Z.pos m * 10 ^ Z.of_nat f)%Z in
        let n := if (0 <=? e)%Z then (q * 2 ^ e)%Z
                 else ((2 * q + 2 ^ (- e)) / (2 * 2 ^ (- e)))%Z in
        (if s then "-" else "") ++ fixedPoint n f
  end.

(** *** The text of a cell, in the two forms the repository has *)

Definition dquote : string := String (ascii_of_nat 34) "".

(** page.tsx, line 431 *)
Definition pct_page (r : Cell) : string :=
  match r with
  | Null | Undefined => "NA"
  | Num x => toFixed (x * 100)%float 1 ++ "%"
  end.

(** page.tsx, line 432 *)
Definition cellText_page (fname : string) (r : Cell) : string :=
  "<b style=" ++ dquote ++ "font-size:11px" ++ dquote ++ ">" ++ fname ++ "</b><br>"
  ++ pct_page r.

(** part_001, line 586 *)
Definition pct_part_001 (r : Cell) : string :=
  match r with
  | Null | Undefined => "NA"
  | Num x => if is_nan x then "NA" else toFixed (x * 100)%float 2 ++ "%"
  end.

(** part_001, lines 588-590 *)
Definition cellText_part_001 (fname : string) (r : Cell) : string :=
  ("<span style=" ++ dquote ++ "font-size:10px; font-weight:520" ++ dquote ++ ">"
     ++ fname ++ "</span><br>")
  ++ ("<span style=" ++ dquote ++ "font-size:11px; font-weight:530" ++ dquote ++ ">"
     ++ pct_part_001 r ++ "</span>").
End ToFixed.

(** *** The matrices [z] and [text] *)

Section Encoder.
(** The text of a cell: [cellText_page] or [cellText_part_001]. *)
Variable cellText : string -> Cell -> string.

(** [rankedFactors?.[0]?.length ?? 0] *)
Definition rankCount (h : HeatmapResp) : nat :=
  match ranked_factors h !! 0%nat with
  | Some first => length first
  | None => 0%nat
  end.

(** [rankedFactors[col]?.[row] ?? ""] *)
Definition labelAt (h : HeatmapResp) (row col : nat) : string :=
  default "" (ranked_factors h !! col ≫= fun ranked => ranked !! row).

(** [rankedReturns?.[col]?.[row]] *)
Definition valueAt (h : HeatmapResp) (row col : nat) : Cell :=
  default Undefined (ranked_returns h ≫= fun rr => rr !! col ≫= fun ranked => ranked !! row).

(** [factorToCode[fname] ?? -1] *)
Definition codeAt (h : HeatmapResp) (row col : nat) : Value :=
  default (Code (-1)) (get (factorToCode h) (labelAt h row col)).

(** [m[row][col] = v] on a matrix whose rows exist and are long enough,
    which is the case for every write of the loop below. *)
Definition set_cell {A : Type} (m : list (list A)) (row col : nat) (v : A) : list (list A) :=
  alter (fun cells => <[col := v]> cells) row m.

(** The body of the inner loop; the state is [(z, text)]. *)
Definition cell_step (h : HeatmapResp) (col : nat)
    (st : list (list Value) * list (list string)) (row : nat)
    : list (list Value) * list (list string) :=
  let fname := labelAt h row col in
  let r := valueAt h row col in
  (set_cell st.1 row col (codeAt h row col), set_cell st.2 row col (cellText fname r)).

(** The two matrices after the loops
    [for (col < months.length) for (row < N)], from their initial fill. *)
Definition encode (h : HeatmapResp) : list (list Value) * list (list string) :=
  let N := rankCount h in
  let M := length (months h) in
  let z := replicate N (replicate M (Code 0)) in
  let text := replicate N (replicate M "") in
  fold_left (fun st col => fold_left (cell_step h col) (seq 0 N) st) (seq 0 M) (z, text).
End Encoder.

(** Decoding a cell of [z] through the category list: [factorList[z[row][col]]]. *)
Definition decode (h : HeatmapResp) (v : Value) : option string :=
  match v with
  | Code i => if (0 <=? i)%Z then factorList h !! Z.to_nat i else None
  | Inherited _ => None
  end.
End Heatmap.

(** ** The values of the ranking artifact (page.tsx, lines 135-139 and 206-213) *)

Module HeatmapJson.
Import Heatmap.

End HeatmapJson.

(** ** The events that the alignment pools (page.tsx, lines 266-272) *)

Module Events.
Import GlobalWave.
Local Open Scope string_scope.

(** An event that enters the pool: it has a date, and its type is one of
    the two kinds. *)
Definition usable (e : GwEvent) : bool :=
  negb (String.eqb (date e) "")
  && (String.eqb (type e) "trough" || String.eqb (type e) "peak").

(** What the loop over the pool keeps true of the four marker arrays. *)
Definition markers_ok {num : Type} (x : list string) (y : list num) (bound : nat)
    (m : Markers (num := num)) : Prop :=
  length (peaksX m) = length (peaksY m)
  /\ length (troughX m) = length (troughY m)
  /\ length (peaksX m) + length (troughX m) <= bound
  /\ Forall (fun o => exists d, o = Some d /\ d ∈ x) (peaksX m)
  /\ Forall (fun o => exists d, o = Some d /\ d ∈ x) (troughX m)
  /\ (length x <= length y -> Forall is_Some (peaksY m) /\ Forall is_Some (troughY m)).
End Events.

(** ** Formatting helpers (page.tsx, lines 45-53 and 387) *)

Module Formatting.
Import Heatmap.
Local Open Scope string_scope.

Section Helpers.
Variable Number_toString : float -> string.

(** [function fmtPct(x)]; [Number.isNaN] holds of the number NaN only. *)
Definition fmtPct (x : Cell) : string :=
  match x with
  | Null | Undefined => "-"
  | Num x => if is_nan x then "-" else toFixed Number_toString (x * 100)%float 2 ++ "%"
  end.

(** [function safeNum(x)], of type [number | null]. *)
Definition safeNum (x : Cell) : option float :=
  match x with
  | Null | Undefined => None
  | Num x => if is_nan x then None else Some x
  end.

(** The Sharpe cell of the metrics table, [row.sharpe?.toFixed(2) || "-"]:
    the empty string is the one string that is falsy. *)
Definition sharpeCell (sharpe : option float) : string :=
  match sharpe with
  | None => "-"
  | Some x => let s := toFixed Number_toString x 2 in if String.eqb s "" then "-" else s
  end.
End Helpers.
End Formatting.

(** ** The discrete colour scale (page.tsx, lines 55-79 and 421-422) *)

Module Colorscale.
Local Open Scope string_scope.

Section Scale.
Context {num : Type} {N : Number num}.
(** The type of the slots of [colorList], and the value [undefined] that a
    read past its end yields. *)
Context {C : Type} (undefined : C).
Local Open Scope js_scope.

(** One iteration of the loop of [makeDiscreteColorscale]; [push] appends. *)
Definition colorscale_step (colorList : list C) (cs : list (num * C)) (i : nat)
    : list (num * C) :=
  let n := lit (Z.of_nat (length colorList)) in
  let a := lit (Z.of_nat i) / n in
  let b := (lit (Z.of_nat i) + 1) / n in
  (cs ++ [(a, default undefined (colorList !! i))])
    ++ [(b, default undefined (colorList !! i))].

Definition makeDiscreteColorscale (colorList : list C) : list (num * C) :=
  fold_left (colorscale_step colorList) (seq 0 (length colorList)) [].

(** The bands of a scale of [n] colours, for the colours [colorList] that
    follow [k] others: each colour spans from [k / n] to [(k + 1) / n]. *)
Fixpoint bands (n : num) (k : nat) (colorList : list C) : list (num * C) :=
  match colorList with
  | [] => []
  | c :: rest =>
      (lit (Z.of_nat k) / n, c) :: ((lit (Z.of_nat k) + 1) / n, c) :: bands n (S k) rest
  end.
End Scale.

(** [const FACTOR_COLORS = { High_yield: "#ff7f0e", ... }]: the own
    properties of the object literal. *)
Definition FACTOR_COLORS : gmap string string :=
  list_to_map
    [("High_yield", "#ff7f0e"); ("PB_low", "#c49c94"); ("PE_low", "#7f7f7f");
     ("Momentum_01", "#bcbd22"); ("Momentum_03", "#8c564b"); ("Momentum_06", "#f1c40f");
     ("High_yoy", "#4e79a7"); ("Margin_growth", "#2ca02c"); ("EPS_growth", "#76b7b2");
     ("Low_beta", "#e377c2"); ("Top300", "#3b82f6")].

(** An element of [colors]: a colour string, or a member that the object
    literal inherits from [Object.prototype] (a function or an object:
    each of them is truthy), or [undefined]. *)
Inductive ColorValue : Type :=
  | Hex (c : string)
  | InheritedMember (key : string)
  | UndefinedColor.

(** [FACTOR_COLORS[f] || "#e2e8f0"] *)
Definition colorOf (f : string) : ColorValue :=
  match FACTOR_COLORS !! f with
  | Some c => if String.eqb c "" then Hex "#e2e8f0" else Hex c
  | None =>
      if bool_decide (f ∈ Heatmap.objectPrototypeKeys) then InheritedMember f
      else Hex "#e2e8f0"
  end.

Section HeatmapScale.
Context {num : Type} {N : Number num}.
Local Open Scope js_scope.

(** [factorList.map((f) => FACTOR_COLORS[f] || "#e2e8f0")] *)
Definition colors (h : Heatmap.HeatmapResp) : list ColorValue :=
  map colorOf (Heatmap.factorList h).

(** [makeDiscreteColorscale(colors)] *)
Definition colorscale (h : Heatmap.HeatmapResp) : list (num * ColorValue) :=
  makeDiscreteColorscale UndefinedColor (colors h).

(** [Array.from({ length: N }, (_, i) => i + 1)] *)
Definition yArr (h : Heatmap.HeatmapResp) : list num :=
  map (fun i => lit (Z.of_nat i) + 1) (seq 0 (Heatmap.rankCount h)).
End HeatmapScale.
End Colorscale.

(** ** The selections of [Home] (page.tsx, lines 168-181, 329 and 466) *)

Module Selection.
Local Open Scope string_scope.

(** The state variables that the first effect and the check boxes set. *)
Record SelectionState : Type := mkSelectionState {
  factors : list string;
  selected : list string;
  gwSelected : list string;
  gwBenchmark : string
}.

(** [list.includes(x)] on strings. *)
Definition includes (list : list string) (x : string) : bool :=
  bool_decide (x ∈ list).

(** The first effect of [Home].  [outcome] is the list that
    [listFactorsFromGithub] resolves to, or [None] when it throws; [st]
    holds the state the effect closes over. *)
Definition loadFactorList (outcome : option (list string)) (st : SelectionState)
    : SelectionState :=
  match outcome with
  | None =>                                              (* catch: setFactors([]) *)
      mkSelectionState [] (selected st) (gwSelected st) (gwBenchmark st)
  | Some list =>
      match list with
      | [] => mkSelectionState list (selected st) (gwSelected st) (gwBenchmark st)
      | first :: _ =>
          let selected' :=
            match selected st with
            | [] => [first]
            | s0 :: _ => if negb (includes list s0) then [first] else selected st
            end in
          let defaults := List.filter (includes list) ["Top300"; "PE_low"; "PB_low"] in
          let gwSelected' :=
            if negb (Nat.eqb (length defaults) 0) then defaults
            else take (Nat.min 3 (length list)) list in
          let gwBenchmark' := if includes list "Top300" then "Top300" else first in
          mkSelectionState list selected' gwSelected' gwBenchmark'
      end
  end.

(** The handler of a check box of factor [f]:
    [checked ? set([...sel, f]) : set(sel.filter(x => x !== f))]. *)
Definition toggle (checked : bool) (f : string) (sel : list string) : list string :=
  if checked then sel ++ [f] else List.filter (fun x => negb (String.eqb x f)) sel.
End Selection.

(** ** Loading the series and the metrics (page.tsx, lines 183-204 and 243-249) *)

Module Dashboard.
Local Open Scope string_scope.

Section Refresh.
Context {num : Type} {N : Number num}.
(** The value that an arithmetic operation reads from an empty slot of [ret]. *)
Variable undefined : num.
Variable Date_getTime : string -> Series.TimeValue.

(** A returns artifact as [fetchJson] yields it: a field that the JSON
    lacks is [None]. *)
Record RawReturns : Type := mkRawReturns {
  raw_name : option string;
  raw_factor : option string;
  raw_dates : option (list string);
  raw_ret : option (list num)
}.

(** [a || b] on an optional string: the empty string is falsy. *)
Definition orElse (a : option string) (b : string) : string :=
  match a with
  | Some s => if String.eqb s "" then b else s
  | None => b
  end.

(** [{ factor: d.factor || d.name || f, dates: d.dates || [], ret: d.ret || [] }] *)
Definition normalized (f : string) (d : RawReturns) : Series.ReturnsResp num :=
  Series.mkReturnsResp None (Some (orElse (raw_factor d) (orElse (raw_name d) f)))
    (default [] (raw_dates d)) (default [] (raw_ret d)).

(** The callback of [selected.map(async (f) => ...)]: [None] when the
    request of the factor throws. *)
Definition loadOne (start end_ : string) (request : string * option RawReturns)
    : option (string * Series.ReturnsResp num) :=
  d ← request.2;
  Some (request.1, Series.clipByRange Date_getTime undefined (normalized request.1 d) start end_).

(** [for (const [f, d] of pairs) obj[f] = d], from [obj = {}]. *)
Definition collect (pairs : list (string * Series.ReturnsResp num))
    : gmap string (Series.ReturnsResp num) :=
  fold_left (fun obj p => <[p.1 := p.2]> obj) pairs ∅.

(** The second effect of [Home], as the pair [(series, metrics)] that it
    sets.  [requests] lists the selected factors, each with what
    [fetchJson] yields for it ([None] when it throws); [Promise.all]
    rejects when one of them throws, and the handler then clears both. *)
Definition loadSeries (requests : list (string * option RawReturns))
    (start end_ : string) (rf : num)
    : gmap string (Series.ReturnsResp num) * list MetricRow :=
  let selected := requests.*1 in
  if Nat.eqb (length selected) 0 then (∅, [])
  else
    match mapM (loadOne start end_) requests with
    | None => (∅, [])                                    (* catch *)
    | Some pairs =>
        let obj := collect pairs in
        let rows :=
          map (fun f =>
                 calcMetricsFromDailyRet f
                   (match obj !! f with Some d => Series.ret d | None => [] end)
                   rf (lit 252))
              selected in
        (obj, rows)
    end.

(** A trace of the performance chart. *)
Record Trace : Type := mkTrace { x : list string; y : list num; name : string }.

(** [chartData]: a factor without a series, or whose series has no date,
    gives [null], which [filter(Boolean)] removes. *)
Definition chartData (series : gmap string (Series.ReturnsResp num))
    (selected : list string) : list Trace :=
  omap (fun f =>
          match series !! f with
          | None => None
          | Some d =>
              if Nat.eqb (length (Series.dates d)) 0 then None
              else Some (mkTrace (Series.dates d) (toCum (Series.ret d)) f)
          end)
       selected.
End Refresh.

Arguments RawReturns : clear implicits.
Arguments mkRawReturns {num}.
Arguments Trace : clear implicits.
End Dashboard.

(** ** The metrics of the factor page (part_003, lines 935-958) *)

Module Detail.
Section CalcMetrics.
Context {num : Type} {N : Number num}.
Local Open Scope js_scope.

(** The object [calcMetrics] returns: its Sharpe ratio is a number. *)
Record Metrics : Type := mkMetrics {
  ann_return : num;
  ann_vol : num;
  sharpe : num;
  maxdd : num
}.

(** [function calcMetrics(ret, freq = 252)] *)
Definition calcMetrics (ret : list num) (freq : num) : Metrics :=
  if Nat.eqb (length ret) 0 then mkMetrics 0 0 0 0 else
  let nav := fold_left (fun nav r => nav * (1 + r)) ret 1 in
  let n := lit (Z.of_nat (length ret)) in
  let ann_return := Math_pow nav (freq / n) - 1 in
  let mean := fold_left (fun a b => a + b) ret 0 / n in
  let var_ := fold_left (fun a r => a + (r - mean) ** 2) ret 0 / Math_max 1 (n - 1) in
  let ann_vol := Math_sqrt (var_ * freq) in
  let sharpe := if ann_vol === 0 then 0 else (mean * freq) / ann_vol in
  let maxdd := maxDrawdownFromReturns ret in
  mkMetrics ann_return ann_vol sharpe maxdd.
End CalcMetrics.

Arguments Metrics : clear implicits.
End Detail.

(** ** The manifest of factors (page.tsx, lines 141-149;
       factor/[name]/page.tsx, lines 9-28) *)

Module Manifest.
Local Open Scope string_scope.

(** A parsed JSON value. *)
Inductive Json : Type :=
  | JNull
  | JBool (b : bool)
  | JNumber (v : float)
  | JString (s : string)
  | JArray (items : list Json)
  | JObject (members : list (string * Json)).

(** Whether a JSON value is truthy: [null], [false], the zeros, NaN and the
    empty string are not. *)
Definition truthy (v : Json) : bool :=
  match v with
  | JNull => false
  | JBool b => b
  | JNumber v => negb (PrimFloat.eqb v 0 || is_nan v)
  | JString s => negb (String.eqb s "")
  | JArray _ | JObject _ => true
  end.

(** An element of the array that [generateStaticParams] returns. *)
Record Params : Type := mkParams { name : string }.

Section Names.
(** [String.prototype.trim] and [Array.prototype.sort] with the comparison
    [(a, b) => a.localeCompare(b)], which the host defines. *)
Variable String_trim : string -> string.
Variable Array_sort : list string -> list string.

(** The test [typeof x === "string" && x.trim().length > 0], with the
    string that passes it. *)
Definition nonBlank (x : Json) : option string :=
  match x with
  | JString s => if Nat.ltb 0 (String.length (String_trim s)) then Some s else None
  | _ => None
  end.

(** [(m?.factors || []).filter(...)].  [factors] is the member of the
    manifest, [None] when the manifest has none; the result is [None] (a
    TypeError) when the member is truthy and is no array: it has no
    [filter]. *)
Definition manifestNames (factors : option Json) : option (list string) :=
  match factors with
  | None => Some []
  | Some (JArray items) => Some (omap nonBlank items)
  | Some v => if truthy v then None else Some []
  end.

(** [listFactorsFromGithub] of page.tsx; [response] is [None] when
    [fetchJson] throws.  The result is [None] when the function throws. *)
Definition listFactorsFromGithub (response : option (option Json)) : option (list string) :=
  factors ← response;
  names ← manifestNames factors;
  Some (Array_sort names).

(** [generateStaticParams] of factor/[name]/page.tsx; [response] is [None]
    when the request fails or its status is not ok.  Every failure is
    caught and gives the empty list. *)
Definition generateStaticParams (response : option (option Json)) : list Params :=
  match response with
  | None => []
  | Some factors => map mkParams (default [] (manifestNames factors))
  end.
End Names.
End Manifest.

(** ** The name of the factor page (FactorDetailClient.tsx, lines 42-53) *)

Module FactorPage.
Local Open Scope string_scope.

(** [s.split("/")] *)
Fixpoint split_slash (s : string) : list string :=
  match s with
  | EmptyString => [""]
  | String c rest =>
      if Ascii.eqb c "/" then "" :: split_slash rest
      else match split_slash rest with
           | seg :: segs => String c seg :: segs
           | [] => [String c ""]
           end
  end.

(** [segments.join("/")] *)
Fixpoint join_slash (segments : list string) : string :=
  match segments with
  | [] => ""
  | [seg] => seg
  | seg :: rest => seg ++ "/" ++ join_slash rest
  end.

(** Whether a string has the character "/". *)
Fixpoint hasSlash (s : string) : bool :=
  match s with
  | EmptyString => false
  | String c rest => Ascii.eqb c "/" || hasSlash rest
  end.

(** [pathname.split("/").filter(Boolean).pop()] *)
Definition lastSegment (pathname : string) : option string :=
  last (List.filter (fun seg => negb (String.eqb seg "")) (split_slash pathname)).

Section SafeName.
(** [String.prototype.trim], and [decodeURIComponent], which is [None]
    when it throws a URIError. *)
Variable String_trim : string -> string.
Variable decodeURIComponent : string -> option string.

(** [name && name !== "undefined" && name.trim().length > 0] *)
Definition usableName (name : option string) : bool :=
  match name with
  | Some n =>
      negb (String.eqb n "") && negb (String.eqb n "undefined")
      && Nat.ltb 0 (String.length (String_trim n))
  | None => false
  end.

(** The memo [safeName]; [None] when [decodeURIComponent] throws. *)
Definition safeName (name pathname : option string) : option string :=
  if usableName name then name
  else
    match pathname with
    | None => Some ""
    | Some p =>
        if String.eqb p "" then Some ""
        else match lastSegment p with
             | Some seg => decodeURIComponent seg
             | None => Some ""
             end
    end.
End SafeName.
End FactorPage.

(* ================================================================== *)
(** * Theorems *)

Section MetricsFacts.
Context {num : Type} {N : Number num}.
Local Open Scope js_scope.

Lemma toCum_from_prefix (v : num) (rs : list num) :
  toCum_from v rs
  = map (fun i => fold_left num_mul (growth (take i rs)) v) (seq 1 (length rs)).
Proof.
  revert v. induction rs as [|r rest IH]; intros v; [reflexivity|].
  cbn [toCum_from length seq map]. f_equal.
  rewrite IH, <- (seq_shift (length rest) 1), map_map. reflexivity.
Qed.

(** C6.  The cumulative curve builder returns, for the returns r_1..r_n,
    the sequence v_1..v_n in which v_i is the product of (1 + r_j) for j
    from 1 to i, accumulated from the implicit v_0 = 1; the empty input
    yields the empty output. *)
Theorem toCum_prefix_products (rs : list num) :
  toCum rs = map (fun i => product (growth (take i rs))) (seq 1 (length rs))
  /\ toCum (@nil num) = [].
Proof. split; [apply toCum_from_prefix | reflexivity]. Qed.

Lemma compound_product (rs : list num) (v : num) :
  fold_left (fun nav r => nav * (1 + r)) rs v = fold_left num_mul (growth rs) v.
Proof. revert v. induction rs as [|r rest IH]; intros v; [reflexivity|apply IH]. Qed.

(** C4.  For a non-empty series of length n the annualized return is
    NAV^(freq/n) - 1, NAV being the product of (1 + r_i) over the whole
    series; for the empty series it is 0. *)
Theorem ann_return_formula (name : string) (r : num) (rest : list num) (rfAnnual freq : num) :
  ann_return (calcMetricsFromDailyRet name (r :: rest) rfAnnual freq)
  = Math_pow (product (growth (r :: rest))) (freq / count (r :: rest)) - 1
  /\ ann_return (calcMetricsFromDailyRet name [] rfAnnual freq) = 0.
Proof.
  split; [|reflexivity].
  unfold calcMetricsFromDailyRet. cbn [length Nat.eqb ann_return].
  rewrite compound_product. reflexivity.
Qed.

Lemma fold_left_add_map (f : num -> num) (xs : list num) (a : num) :
  fold_left (fun acc x => acc + f x) xs a = fold_left num_add (map f xs) a.
Proof. revert a. induction xs as [|x rest IH]; intros a; [reflexivity|apply IH]. Qed.

(** The variance of the loop of the calculator is [sampleVariance]. *)
Lemma calc_variance (xs : list num) :
  fold_left (fun a r => a + (r - fold_left (fun a b => a + b) xs 0 / count xs) ** 2) xs 0
    / Math_max 1 (count xs - 1)
  = sampleVariance xs.
Proof.
  unfold sampleVariance, sumSquares, sum, mean, sum.
  rewrite (fold_left_add_map (fun r => (r - fold_left num_add xs 0 / count xs) ** 2)).
  reflexivity.
Qed.

Lemma calc_ann_vol (name : string) (r : num) (rest : list num) (rfAnnual freq : num) :
  ann_vol (calcMetricsFromDailyRet name (r :: rest) rfAnnual freq)
  = annualizedVol (r :: rest) freq.
Proof.
  unfold calcMetricsFromDailyRet, annualizedVol. cbn [length Nat.eqb ann_vol].
  rewrite <- calc_variance. reflexivity.
Qed.

Lemma calc_sharpe (name : string) (r : num) (rest : list num) (rfAnnual freq : num) :
  sharpe (calcMetricsFromDailyRet name (r :: rest) rfAnnual freq)
  = if annualizedExcessVol (r :: rest) rfAnnual freq === 0 then None
    else Some (mean (excess (r :: rest) rfAnnual freq) * freq
               / annualizedExcessVol (r :: rest) rfAnnual freq).
Proof.
  unfold calcMetricsFromDailyRet, annualizedExcessVol, annualizedVol.
  cbn [length Nat.eqb sharpe].
  rewrite <- calc_variance. unfold excess, mean, sum, count.
  rewrite !length_map. reflexivity.
Qed.


End MetricsFacts.

(** ** The drawdown walk and the volatility, in exact arithmetic *)

Section RealMetricsFacts.
Import ExactReals RealSpec.
Local Open Scope R_scope.

Lemma if_Rlt_max (a b : R) :
  (if (if Rlt_dec a b then true else false) then b else a) = Rmax a b.
Proof. unfold Rmax. destruct (Rlt_dec a b), (Rle_dec a b). all: lra. Qed.

Lemma if_Rlt_min (a b : R) :
  (if (if Rlt_dec a b then true else false) then a else b) = Rmin b a.
Proof. unfold Rmin. destruct (Rlt_dec a b), (Rle_dec b a). all: lra. Qed.

(** Over the reals the two comparisons of the loop body are [Rmax] and [Rmin]. *)
Lemma drawdown_step_real (st : DrawdownState) (r : R) :
  drawdown_step st r
  = let nav := dd_nav st * (1 + r) in
    let peak := Rmax (dd_peak st) nav in
    mkDD peak nav (Rmin (dd_maxdd st) (nav / peak - 1)).
Proof.
  unfold drawdown_step. cbn -[Rmax Rmin].
  rewrite if_Rlt_max, if_Rlt_min. reflexivity.
Qed.

Lemma walk_is_fold (rs : list R) (p v m : R) :
  dd_maxdd (fold_left drawdown_step rs (mkDD p v m))
  = fold_left Rmin
      (zip_with (fun v p => v / p - 1) (toCum_from v rs) (runningPeak p (toCum_from v rs))) m.
Proof.
  revert p v m. induction rs as [|r rest IH]; intros p v m; [reflexivity|].
  cbn [fold_left]. rewrite drawdown_step_real. cbn -[Rmax Rmin]. apply IH.
Qed.

Lemma fold_Rmin_le (dds : list R) (m : R) : fold_left Rmin dds m <= m.
Proof.
  revert m. induction dds as [|d ds IH]; intros m; cbn [fold_left]; [lra|].
  etransitivity; [apply IH | apply Rmin_l].
Qed.

Lemma flat_iff_sorted (rs : list R) (v : R) :
  0 < v ->
  fold_left Rmin
    (zip_with (fun v p => v / p - 1) (toCum_from v rs) (runningPeak v (toCum_from v rs))) 0 = 0
  <-> Sorted Rle (v :: toCum_from v rs).
Proof.
  revert v. induction rs as [|r rest IH]; intros v Hv.
  - cbn. split; [intros _; repeat constructor | reflexivity].
  - cbn -[Rmax Rmin]. set (nav := v * (1 + r)).
    destruct (Rle_dec v nav) as [Hle|Hlt].
    + rewrite (Rmax_right v nav Hle).
      replace (nav / nav - 1) with 0 by (field; lra).
      rewrite Rmin_left by lra.
      rewrite (IH nav) by lra. split.
      * intros Hs. constructor; [exact Hs | constructor; exact Hle].
      * intros Hs. inversion Hs; assumption.
    + apply Rnot_le_lt in Hlt. rewrite (Rmax_left v nav) by lra.
      assert (Hinv : 0 < / v) by (apply Rinv_0_lt_compat; lra).
      assert (Hdd : nav / v - 1 < 0).
      { replace (nav / v - 1) with ((nav - v) * / v) by (field; lra). nra. }
      rewrite Rmin_right by lra. split.
      * intros Hz. pose proof (fold_Rmin_le
          (zip_with (fun v p => v / p - 1) (toCum_from nav rest)
             (runningPeak v (toCum_from nav rest))) (nav / v - 1)) as Hfold.
        rewrite Hz in Hfold. lra.
      * intros Hs. inversion Hs as [|? ? _ Hhd]. inversion Hhd. lra.
Qed.

(** In exact arithmetic, where nothing rounds or overflows, the maximum
    drawdown is 0 exactly when the growth-of-1 curve never decreases, and
    it is the least of the per-step drawdowns and 0. *)
Lemma maxDrawdown_walk_exact (rs : list R) :
  maxDrawdownFromReturns rs <= 0
  /\ (maxDrawdownFromReturns rs = 0 <-> nonDecreasing (growthCurve rs))
  /\ maxDrawdownFromReturns rs = mostNegative (drawdowns rs)
  /\ maxDrawdownFromReturns (@nil R) = 0.
Proof.
  assert (Hwalk : maxDrawdownFromReturns rs = mostNegative (drawdowns rs)).
  { unfold maxDrawdownFromReturns. cbn [lit Rnum]. apply walk_is_fold. }
  repeat split; try exact Hwalk.
  - rewrite Hwalk. apply fold_Rmin_le.
  - rewrite Hwalk. intros Hz. apply (proj1 (flat_iff_sorted rs 1 Rlt_0_1)). exact Hz.
  - rewrite Hwalk. intros Hs. apply (proj2 (flat_iff_sorted rs 1 Rlt_0_1)). exact Hs.
Qed.

Lemma Rpow_square (x : R) : Rpow x 2 = x * x.
Proof.
  assert (Hint : Int_part 2 = 2%Z) by (symmetry; apply Int_part_spec; lra).
  unfold Rpow, frac_part. rewrite Hint.
  destruct (Req_dec_T (2 - 2) 0) as [_|Hne]; [|exfalso; apply Hne; lra].
  change (powerRZ x 2) with (x * (x * 1)). lra.
Qed.

Lemma fold_Rplus_nonneg (xs : list R) (a : R) :
  0 <= a -> Forall (fun x => 0 <= x) xs -> 0 <= fold_left Rplus xs a.
Proof.
  revert a. induction xs as [|x rest IH]; intros a Ha Hxs; [exact Ha|].
  inversion Hxs; subst. cbn [fold_left]. apply IH; [lra | assumption].
Qed.

Lemma sumSquares_nonneg (xs : list R) : 0 <= sumSquares xs.
Proof.
  unfold sumSquares, sum. apply fold_Rplus_nonneg; [cbn; lra|].
  apply Forall_map, Forall_forall. intros x _. cbn [Math_pow Rnum lit].
  rewrite Rpow_square. nra.
Qed.

(** [Math.max(1, n - 1)] is the divisor n - 1, clamped to 1 when n = 1. *)
Lemma max_is_besselDivisor (k : nat) :
  Rmax 1 (IZR (Z.of_nat (S k)) - 1) = besselDivisor (S k) /\ 0 < besselDivisor (S k).
Proof.
  rewrite <- INR_IZR_INZ. unfold besselDivisor. destruct k as [|k'].
  - cbn. rewrite Rmax_left by lra. lra.
  - cbn [Nat.eqb]. pose proof (pos_INR k') as Hpos.
    rewrite !S_INR in *. rewrite Rmax_right by lra. lra.
Qed.

(** In exact arithmetic, and for a positive freq, the square root
    distributes: the annualized volatility of a non-empty series is its
    sample standard deviation multiplied by the square root of freq. *)
Lemma ann_vol_formula_exact (name : string) (r : R) (rest : list R) (rfAnnual freq : R) :
  0 < freq ->
  ann_vol (calcMetricsFromDailyRet name (r :: rest) rfAnnual freq)
  = sampleStdDev (r :: rest) * R_sqrt.sqrt freq.
Proof.
  intros _.
  rewrite calc_ann_vol. unfold annualizedVol, sampleStdDev, sampleVariance, count.
  cbn [Math_sqrt Math_max num_mul num_div num_sub lit Rnum length].
  destruct (max_is_besselDivisor (length rest)) as [-> Hdiv].
  apply sqrt_mult_alt. apply Rmult_le_pos; [apply sumSquares_nonneg|].
  left. apply Rinv_0_lt_compat. exact Hdiv.
Qed.
End RealMetricsFacts.

(** ** The Sharpe ratio on binary64 *)

Section Binary64Facts.
Import Binary64.
Local Open Scope float_scope.

Lemma finite_shape (x : float) :
  is_finite x = true ->
  (exists s, Prim2SF x = S754_zero s) \/ (exists s m e, Prim2SF x = S754_finite s m e).
Proof.
  unfold is_finite, is_nan, is_infinity.
  rewrite !FloatAxioms.eqb_spec, abs_spec.
  replace (Prim2SF infinity) with (S754_infinity false) by reflexivity.
  destruct (Prim2SF x) as [s|s| |s m e]; cbn.
  - eauto.
  - destruct s; discriminate.
  - discriminate.
  - eauto 6.
Qed.

(** The volatility of the empty series: [Math.sqrt(0 * freq)] is a zero. *)
Lemma sqrt_zero_mul_finite (freq : float) :
  is_finite freq = true -> (sqrt (0 * freq) =? 0) = true.
Proof.
  intros Hfin. rewrite FloatAxioms.eqb_spec, sqrt_spec, mul_spec.
  replace (Prim2SF 0) with (S754_zero false) by reflexivity.
  destruct (finite_shape freq Hfin) as [[s ->]|(s & m & e & ->)]; destruct s; reflexivity.
Qed.

(** C1 (as amended).  On every engine, for every return series and every
    finite periods-per-year constant, the Sharpe ratio is null exactly
    when the annualized excess volatility (sample variance of the excess
    returns r_i - rf/freq with the Bessel divisor max(1, n-1), annualized
    by freq under the square root) compares equal to zero; when it does
    not, the Sharpe ratio is the number (mean excess return x freq)
    divided by that volatility. *)
Theorem sharpe_null_iff_zero_vol
    (pow_approx : float -> float -> float)
    (name : string) (rs : list float) (rfAnnual freq : float) :
  is_finite freq = true ->
  let row := calcMetricsFromDailyRet (N := binary64 pow_approx) name rs rfAnnual freq in
  let vol := annualizedExcessVol (N := binary64 pow_approx) rs rfAnnual freq in
  (sharpe row = None <-> (vol =? 0) = true)
  /\ ((vol =? 0) = false ->
      sharpe row
      = Some (mean (N := binary64 pow_approx) (excess (N := binary64 pow_approx) rs rfAnnual freq)
              * freq / vol)).
Proof.
  intros Hfin row vol. destruct rs as [|r rest].
  - assert (Hz : (vol =? 0) = true) by (apply (sqrt_zero_mul_finite freq Hfin)).
    rewrite Hz. split; [split; reflexivity | discriminate].
  - subst row vol. rewrite calc_sharpe.
    change (num_eq (Number := binary64 pow_approx)) with PrimFloat.eqb.
    change (lit (Number := binary64 pow_approx) 0) with 0.
    destruct (_ =? 0).
    + split; [split; reflexivity | discriminate].
    + split; [split; discriminate | reflexivity].
Qed.

Lemma sharpe_null_iff_zero_vol_witness :
  let engine := binary64 (fun base exponent => base * base) in
  let rs := [0.01; -0.02; 0.03] in
  is_finite 252 = true
  /\ (sharpe (calcMetricsFromDailyRet (N := engine) "Top300" rs 0 252) = None
      <-> (annualizedExcessVol (N := engine) rs 0 252 =? 0) = true).
Proof.
  split; [reflexivity|].
  exact (proj1 (sharpe_null_iff_zero_vol (fun base exponent => base * base)
                  "Top300" [0.01; -0.02; 0.03] 0 252 eq_refl)).
Defined.

(** The returns [1e308; 1e308] overflow the sum of the series: on every
    engine the mean and the volatility are infinite, so the volatility is
    not zero, and their ratio is NaN. *)
Remark sharpe_overflow (pow_approx : float -> float -> float) :
  let rs := [1e308; 1e308] in
  (annualizedExcessVol (N := binary64 pow_approx) rs 0 252 =? 0) = false
  /\ sharpe (calcMetricsFromDailyRet (N := binary64 pow_approx) "Top300" rs 0 252) = Some nan.
Proof. vm_compute. split; reflexivity. Qed.

(** C1 as stated fails: a volatility that is not zero does not make the
    Sharpe ratio finite. *)
Lemma sharpe_not_finite :
  ~ (forall (pow_approx : float -> float -> float) (name : string)
            (rs : list float) (rfAnnual freq : float),
        (annualizedExcessVol (N := binary64 pow_approx) rs rfAnnual freq =? 0) = false ->
        exists x,
          sharpe (calcMetricsFromDailyRet (N := binary64 pow_approx) name rs rfAnnual freq)
          = Some x /\ is_finite x = true).
Proof.
  intros Hclaim.
  destruct (sharpe_overflow PrimFloat.mul) as [Hvol Hnan].
  destruct (Hclaim PrimFloat.mul "Top300" [1e308; 1e308] 0 252 Hvol) as (x & Hx & Hfin).
  rewrite Hnan in Hx. injection Hx as <-. discriminate Hfin.
Qed.

(** A value below a value that is at most zero is at most zero (and is
    not NaN). *)
Lemma ltb_leb_zero (x m : float) :
  (x <? m) = true -> (m <=? 0) = true -> (x <=? 0) = true.
Proof.
  rewrite ltb_spec, !leb_spec.
  replace (Prim2SF 0) with (S754_zero false) by reflexivity.
  destruct (Prim2SF x) as [sx|sx| |sx mx ex], (Prim2SF m) as [sm|sm| |sm mm em];
    cbn; try discriminate; try (destruct sx; cbn; try discriminate; reflexivity);
    destruct sx, sm; cbn; try discriminate; reflexivity.
Qed.

Lemma drawdown_fold_nonpositive (pow_approx : float -> float -> float)
      (rs : list float) (st : DrawdownState) :
  (dd_maxdd st <=? 0) = true ->
  (dd_maxdd (fold_left (drawdown_step (N := binary64 pow_approx)) rs st) <=? 0) = true.
Proof.
  revert st. induction rs as [|r rest IH]; intros st Hst; [exact Hst|].
  cbn [fold_left]. apply IH. unfold drawdown_step. cbn [dd_maxdd].
  change (num_lt (Number := binary64 pow_approx)) with PrimFloat.ltb.
  destruct (_ <? dd_maxdd st) eqn:Hlt; [|exact Hst].
  exact (ltb_leb_zero _ _ Hlt Hst).
Qed.

(** X3 (beside C2).  On binary64, whatever the returns (overflowing ones
    included), the maximum drawdown is at most zero, and so is not NaN. *)
Theorem maxDrawdown_binary64_nonpositive (pow_approx : float -> float -> float)
    (rs : list float) :
  (maxDrawdownFromReturns (N := binary64 pow_approx) rs <=? 0) = true.
Proof.
  unfold maxDrawdownFromReturns. apply drawdown_fold_nonpositive. reflexivity.
Qed.

(** The implicit starting value is a point of the curve of C2: the single
    return -0.5 draws down by a half, while the one-point curve [toCum]
    returns cannot decrease. *)
Remark drawdown_counts_from_one (pow_approx : float -> float -> float) :
  maxDrawdownFromReturns (N := binary64 pow_approx) [-0.5] = -0.5
  /\ toCum (N := binary64 pow_approx) [-0.5] = [0.5].
Proof. vm_compute. split; reflexivity. Qed.

(** The scenario of the specification: the returns 0.01, -0.02, 0.03
    compound to NAV = 1.019494 (to the last bit, 1.0194940000000001), which
    [Math.pow] raises to the power 252 / 3 = 84. *)
Example annualized_return_scenario (pow_approx : float -> float -> float) :
  ann_return (calcMetricsFromDailyRet (N := binary64 pow_approx) "Top300"
                [0.01; -0.02; 0.03] 0 252)
  = pow_approx 1.0194940000000001 84 - 1.
Proof. vm_compute. reflexivity. Qed.

(** The scenario of the specification: three returns of zero give a
    volatility of zero, no Sharpe ratio and no drawdown. *)
Example flat_zero_series (pow_approx : float -> float -> float) :
  let row := calcMetricsFromDailyRet (N := binary64 pow_approx) "Top300" [0; 0; 0] 0 252 in
  ann_vol row = 0 /\ sharpe row = None /\ maxdd row = 0.
Proof. vm_compute. repeat split. Qed.
End Binary64Facts.

(** ** The drawdown walk on binary64 *)

Section Binary64Drawdown.
Import Binary64.
Local Open Scope float_scope.













End Binary64Drawdown.

(** ** The volatility on binary64 *)

Section Binary64Volatility.
Import Binary64.
Local Open Scope float_scope.


End Binary64Volatility.

(** ** The date range filter *)

Section DateRangeFacts.
Import Series.
Variable Date_getTime : string -> TimeValue.
Context {V : Type} (undefined : V).

Abbreviation clip := (clipByRange Date_getTime undefined).
Abbreviation obs := (observations undefined).
Abbreviation keep s e := (fun o : string * V => inRange Date_getTime s e o.1).

(** The loop over the indices [k .. k + |rest|), where [rest] is what is
    left of [d.dates] from index [k] on. *)
Lemma clip_loop (s e : Z) (d : ReturnsResp V) (rest seen : list string)
      (out : list string * list V) :
  dates d = seen ++ rest ->
  let kept :=
    List.filter (keep s e)
      (imap (fun i date_i => (date_i, default undefined (ret d !! (length seen + i)))) rest) in
  fold_left (clip_step Date_getTime undefined s e d) (seq (length seen) (length rest)) out
  = (out.1 ++ kept.*1, out.2 ++ kept.*2).
Proof.
  revert seen out. induction rest as [|date_i rest IH]; intros seen out Hd kept.
  - subst kept. cbn. rewrite !app_nil_r. destruct out; reflexivity.
  - cbn [length seq fold_left].
    assert (Hi : dates d !! length seen = Some date_i).
    { rewrite Hd. rewrite lookup_app_r by lia. rewrite Nat.sub_diag. reflexivity. }
    assert (Hstep : clip_step Date_getTime undefined s e d out (length seen)
                    = if inRange Date_getTime s e date_i
                      then (out.1 ++ [date_i], out.2 ++ [default undefined (ret d !! length seen)])
                      else out).
    { unfold clip_step, inRange. rewrite Hi.
      destruct (parseDate Date_getTime date_i) as [di|]; reflexivity. }
    rewrite Hstep. clear Hstep.
    specialize (IH (seen ++ [date_i])). rewrite length_app in IH. cbn [length] in IH.
    replace (length seen + 1) with (S (length seen)) in IH by lia.
    rewrite IH by (rewrite <- app_assoc; exact Hd). clear IH.
    subst kept. cbn [imap List.filter fst]. rewrite Nat.add_0_r.
    rewrite (imap_ext
               (fun i date_j => (date_j, default undefined (ret d !! (S (length seen) + i))))
               ((fun i date_j => (date_j, default undefined (ret d !! (length seen + i)))) ∘ S))
      by (intros; cbn; do 3 f_equal; lia).
    destruct (inRange Date_getTime s e date_i); cbn [fst snd fmap list_fmap];
      rewrite <- ?app_assoc; reflexivity.
Qed.

Lemma clip_between (d : ReturnsResp V) (start end_ : string) (s e : Z) :
  parseDate Date_getTime start = Some s ->
  parseDate Date_getTime end_ = Some e ->
  clip d start end_
  = mkReturnsResp (name d) (factor d)
      (List.filter (keep s e) (obs d)).*1 (List.filter (keep s e) (obs d)).*2.
Proof.
  intros Hs He. unfold clipByRange. rewrite Hs, He.
  pose proof (clip_loop s e d (dates d) [] ([], []) eq_refl) as Hloop.
  cbn [length] in Hloop. cbn zeta in Hloop. rewrite Hloop. reflexivity.
Qed.

(** C3.  "A date parses" is a fact of the host: [new Date(s).getTime()]
    is a time value and not NaN.  When both bounds parse, to the instants
    s and e, the filter returns exactly the observations whose date parses
    to an instant of the closed interval [s, e], in their order and each
    with its own return, and drops every other observation, those whose
    date does not parse included; the other fields of the series are kept.
    When a bound does not parse, it returns the series unchanged.
    [clipByRange] is a total function: it has a result, and raises nothing,
    on every input, a ragged one included. *)
Theorem clipByRange_spec (d : ReturnsResp V) (start end_ : string) :
  match Date_getTime start, Date_getTime end_ with
  | ms s, ms e =>
      let kept :=
        List.filter
          (fun o : string * V =>
             match Date_getTime o.1 with
             | ms t => (s <=? t)%Z && (t <=? e)%Z
             | NaN_time => false
             end)
          (obs d) in
      dates (clip d start end_) = kept.*1
      /\ ret (clip d start end_) = kept.*2
      /\ name (clip d start end_) = name d
      /\ factor (clip d start end_) = factor d
      /\ (forall o, o ∈ zip (dates (clip d start end_)) (ret (clip d start end_))
                    <-> o ∈ obs d
                        /\ exists t, Date_getTime o.1 = ms t /\ (s <= t <= e)%Z)
      /\ (forall o, o ∈ obs d -> Date_getTime o.1 = NaN_time ->
                    o ∉ zip (dates (clip d start end_)) (ret (clip d start end_)))
  | _, _ => clip d start end_ = d
  end.
Proof.
  destruct (Date_getTime start) as [|s] eqn:Hs.
  { unfold clipByRange, parseDate. rewrite Hs. reflexivity. }
  destruct (Date_getTime end_) as [|e] eqn:He.
  { unfold clipByRange, parseDate. rewrite Hs, He. reflexivity. }
  cbn zeta.
  rewrite (clip_between d start end_ s e)
    by (unfold parseDate; rewrite ?Hs, ?He; reflexivity).
  cbn [dates ret name factor].
  assert (Hkeep : forall o : string * V,
            inRange Date_getTime s e o.1
            = match Date_getTime o.1 with
              | ms t => (s <=? t)%Z && (t <=? e)%Z
              | NaN_time => false
              end).
  { intros o. unfold inRange, parseDate. destruct (Date_getTime o.1); reflexivity. }
  rewrite (List.filter_ext _ _ Hkeep).
  set (kept := List.filter _ (obs d)).
  assert (Hin : forall o, o ∈ zip kept.*1 kept.*2
                  <-> o ∈ obs d /\ exists t, Date_getTime o.1 = ms t /\ (s <= t <= e)%Z).
  { intros o. rewrite zip_fst_snd. subst kept.
    rewrite list_elem_of_In, filter_In, <- list_elem_of_In.
    destruct (Date_getTime o.1) as [|t].
    - split; [intros [_ H]; discriminate H | intros [_ (t & H & _)]; discriminate H].
    - rewrite andb_true_iff, !Z.leb_le. split.
      + intros [Ho Ht]. split; [exact Ho|]. exists t. split; [reflexivity | exact Ht].
      + intros [Ho (t' & Ht' & Hbounds)]. injection Ht' as <-. split; assumption. }
  split; [reflexivity|]. split; [reflexivity|]. split; [reflexivity|].
  split; [reflexivity|]. split; [exact Hin|].
  intros o Ho Hnan [_ (t & Ht & _)]%Hin. rewrite Hnan in Ht. discriminate Ht.
Qed.

Lemma obs_of_pairs (l : list (string * V)) (nm fc : option string) :
  obs (mkReturnsResp nm fc l.*1 l.*2) = l.
Proof.
  unfold observations. cbn [dates ret].
  assert (Hgen : forall pre : list (string * V),
    imap (fun i date_i => (date_i, default undefined ((pre ++ l).*2 !! (length pre + i)))) l.*1 = l).
  { induction l as [|[dt v] rest IH]; intros pre; [reflexivity|].
    cbn [fmap list_fmap imap fst snd]. f_equal.
    - rewrite Nat.add_0_r, fmap_app, lookup_app_r by (rewrite length_fmap; lia).
      rewrite length_fmap, Nat.sub_diag. reflexivity.
    - specialize (IH (pre ++ [(dt, v)])). rewrite <- app_assoc in IH. cbn in IH.
      etransitivity; [|exact IH]. apply imap_ext. intros i x _. cbn.
      rewrite length_app. cbn. do 3 f_equal. lia. }
  exact (Hgen []).
Qed.

Lemma filter_filter_same {A : Type} (p : A -> bool) (l : list A) :
  List.filter p (List.filter p l) = List.filter p l.
Proof.
  induction l as [|a rest IH]; [reflexivity|]. cbn.
  destruct (p a) eqn:Hp; [cbn; rewrite Hp, IH; reflexivity | exact IH].
Qed.

(** C8.  The date range filter is idempotent: filtering the result of a
    filter with the same bounds gives back that result. *)
Theorem clipByRange_idempotent (d : ReturnsResp V) (start end_ : string) :
  clip (clip d start end_) start end_ = clip d start end_.
Proof.
  destruct (parseDate Date_getTime start) as [s|] eqn:Hs;
    [destruct (parseDate Date_getTime end_) as [e|] eqn:He|].
  - rewrite (clip_between d start end_ s e Hs He).
    rewrite (clip_between _ start end_ s e Hs He). cbn [name factor].
    rewrite obs_of_pairs, filter_filter_same. reflexivity.
  - unfold clipByRange. rewrite Hs, He. reflexivity.
  - unfold clipByRange. rewrite Hs. reflexivity.
Qed.
End DateRangeFacts.

(** ** Event alignment *)

Section AlignmentFacts.
Import Series GlobalWave.
Local Open Scope Z_scope.

Lemma digitOf_code (c : ascii) (x : Z) :
  digitOf c = Some x -> Z.of_N (N_of_ascii c) = x + 48 /\ 0 <= x <= 9.
Proof.
  unfold digitOf. destruct (_ && _) eqn:Hb; [|discriminate].
  intros Hx. injection Hx as Hx. apply andb_true_iff in Hb as [H1 H2]. lia.
Qed.

(** Two digits compare as characters the way their values compare. *)
Lemma digitOf_compare (c c' : ascii) (x y : Z) :
  digitOf c = Some x -> digitOf c' = Some y -> Ascii.compare c c' = (x ?= y).
Proof.
  intros [Hx _]%digitOf_code [Hy _]%digitOf_code.
  unfold Ascii.compare. rewrite <- N2Z.inj_compare, Hx, Hy.
  rewrite (Z.compare_sub (x + 48) (y + 48)), (Z.compare_sub x y). f_equal. lia.
Qed.

(** Steps of the analysis of a string that [isoDay] accepts: its next
    character, and the value of a character that is a digit. *)
Tactic Notation "next_char" ident(s) ident(H) ident(c) :=
  destruct s as [|c s]; [discriminate H|].
Tactic Notation "next_digit" ident(c) ident(x) ident(E) ident(H) :=
  destruct (digitOf c) as [x|] eqn:E; [|discriminate H].

(** A string accepted by [isoDay] has ten characters: eight digits and
    two hyphens. *)
Lemma isoDay_shape (s : string) (day : Z) :
  isoDay s = Some day ->
  exists c1 c2 c3 c4 c5 c6 c7 c8 x1 x2 x3 x4 x5 x6 x7 x8,
    s = String c1 (String c2 (String c3 (String c4 (String "-"
          (String c5 (String c6 (String "-" (String c7 (String c8 EmptyString)))))))))
    /\ digitOf c1 = Some x1 /\ digitOf c2 = Some x2 /\ digitOf c3 = Some x3
    /\ digitOf c4 = Some x4 /\ digitOf c5 = Some x5 /\ digitOf c6 = Some x6
    /\ digitOf c7 = Some x7 /\ digitOf c8 = Some x8
    /\ day = ((((((x1 * 10 + x2) * 10 + x3) * 10 + x4) * 10 + x5) * 10 + x6) * 10 + x7) * 10 + x8.
Proof.
  intros H.
  next_char s H c1. next_char s H c2. next_char s H c3. next_char s H c4.
  next_char s H h1. next_char s H c5. next_char s H c6. next_char s H h2.
  next_char s H c7. next_char s H c8.
  destruct s; [|discriminate H].
  cbn [isoDay] in H.
  destruct (Ascii.eqb_spec h1 "-") as [->|]; [|discriminate H].
  destruct (Ascii.eqb_spec h2 "-") as [->|]; [|discriminate H].
  cbn [andb] in H.
  next_digit c1 x1 E1 H. next_digit c2 x2 E2 H. next_digit c3 x3 E3 H.
  next_digit c4 x4 E4 H. next_digit c5 x5 E5 H. next_digit c6 x6 E6 H.
  next_digit c7 x7 E7 H. next_digit c8 x8 E8 H.
  cbn in H. injection H as <-.
  exists c1, c2, c3, c4, c5, c6, c7, c8, x1, x2, x3, x4, x5, x6, x7, x8.
  repeat split; assumption.
Qed.

(** On calendar dates the order of the code units of two strings is the
    order of the calendar. *)
Lemma iso_order (a b : string) (da db : Z) :
  isoDay a = Some da -> isoDay b = Some db -> String.leb a b = (da <=? db).
Proof.
  intros (a1 & a2 & a3 & a4 & a5 & a6 & a7 & a8 & x1 & x2 & x3 & x4 & x5 & x6 & x7 & x8
          & -> & Ha1 & Ha2 & Ha3 & Ha4 & Ha5 & Ha6 & Ha7 & Ha8 & ->)%isoDay_shape.
  intros (b1 & b2 & b3 & b4 & b5 & b6 & b7 & b8 & y1 & y2 & y3 & y4 & y5 & y6 & y7 & y8
          & -> & Hb1 & Hb2 & Hb3 & Hb4 & Hb5 & Hb6 & Hb7 & Hb8 & ->)%isoDay_shape.
  unfold String.leb. cbn [String.compare].
  change (Ascii.compare "-" "-") with Eq. cbv iota.
  rewrite (digitOf_compare _ _ _ _ Ha1 Hb1), (digitOf_compare _ _ _ _ Ha2 Hb2),
    (digitOf_compare _ _ _ _ Ha3 Hb3), (digitOf_compare _ _ _ _ Ha4 Hb4),
    (digitOf_compare _ _ _ _ Ha5 Hb5), (digitOf_compare _ _ _ _ Ha6 Hb6),
    (digitOf_compare _ _ _ _ Ha7 Hb7), (digitOf_compare _ _ _ _ Ha8 Hb8).
  apply digitOf_code in Ha1 as [_ ?], Ha2 as [_ ?], Ha3 as [_ ?], Ha4 as [_ ?],
    Ha5 as [_ ?], Ha6 as [_ ?], Ha7 as [_ ?], Ha8 as [_ ?].
  apply digitOf_code in Hb1 as [_ ?], Hb2 as [_ ?], Hb3 as [_ ?], Hb4 as [_ ?],
    Hb5 as [_ ?], Hb6 as [_ ?], Hb7 as [_ ?], Hb8 as [_ ?].
  symmetry.
  repeat match goal with
  | |- context [?x ?= ?y] =>
      destruct (Z.compare_spec x y);
        [subst | apply Z.leb_le; lia | apply Z.leb_gt; lia]
  end.
  apply Z.leb_le; lia.
Qed.

Lemma string_ge_onOrBefore (eventDate d : string) :
  isIsoDate eventDate -> isIsoDate d ->
  string_ge d eventDate = bool_decide (onOrBefore eventDate d).
Proof.
  intros [de He] [dd Hd].
  assert (Hiff : onOrBefore eventDate d <-> de <= dd).
  { unfold onOrBefore. rewrite He, Hd. reflexivity. }
  unfold string_ge. rewrite (iso_order _ _ _ _ He Hd).
  destruct (Z.leb_spec de dd); symmetry;
    [apply bool_decide_eq_true_2 | apply bool_decide_eq_false_2]; rewrite Hiff; lia.
Qed.

(** [findIndex] returns the index of the first element that satisfies the
    test, and -1 when there is none. *)
Lemma findIndex_from_list_find {A : Type} (P : A -> Prop) `{forall a, Decision (P a)}
      (p : A -> bool) (l : list A) (i : Z) :
  Forall (fun a => p a = bool_decide (P a)) l ->
  findIndex_from p l i
  = match list_find P l with Some (k, _) => i + Z.of_nat k | None => -1 end.
Proof.
  intros Hl. revert i. induction Hl as [|a rest Ha _ IH]; intros i; [reflexivity|].
  cbn [findIndex_from list_find]. rewrite Ha.
  destruct (decide (P a)) as [HP|HP].
  - rewrite bool_decide_eq_true_2 by exact HP. cbn. lia.
  - rewrite bool_decide_eq_false_2 by exact HP. rewrite IH.
    destruct (list_find P rest) as [[k a']|]; cbn; lia.
Qed.

Lemma pool_of_well_formed (evs : list GwEvent) (acc : list PoolEvent) :
  Forall wellFormed evs -> fold_left pool_step evs acc = acc ++ map poolOf evs.
Proof.
  intros Hevs. revert acc. induction Hevs as [|e rest [[day Hday] Hty] _ IH]; intros acc.
  - cbn. rewrite app_nil_r. reflexivity.
  - cbn [fold_left map]. rewrite IH. unfold pool_step, poolOf.
    assert (Hne : String.eqb (date e) "" = false).
    { destruct (date e); [discriminate Hday | reflexivity]. }
    rewrite Hne. cbn [negb].
    destruct Hty as [-> | ->]; cbn; rewrite <- app_assoc; reflexivity.
Qed.

Lemma findIndex_aligned (x : list string) (eventDate : string) :
  Forall isIsoDate x -> isIsoDate eventDate ->
  findIndex (fun d => string_ge d eventDate) x
  = match firstOnOrAfter x eventDate with Some (k, _) => Z.of_nat k | None => -1 end.
Proof.
  intros Hx He. unfold findIndex, firstOnOrAfter.
  rewrite (findIndex_from_list_find (onOrBefore eventDate)).
  - destruct (list_find _ x) as [[k d]|]; reflexivity.
  - eapply Forall_impl; [exact Hx|]. intros d Hd. cbn. apply string_ge_onOrBefore; assumption.
Qed.

Section MarkerFold.
Context {num : Type} {N : Number num}.

Lemma marker_step_aligned (x : list string) (y : list num) (m : Markers) (e : GwEvent) :
  Forall isIsoDate x -> wellFormed e ->
  marker_step x y m (poolOf e)
  = mkMarkers
      (peaksX m ++ ((Some ∘ fst) <$> markersOf "peak" x y [e]))
      (peaksY m ++ (snd <$> markersOf "peak" x y [e]))
      (troughX m ++ ((Some ∘ fst) <$> markersOf "trough" x y [e]))
      (troughY m ++ (snd <$> markersOf "trough" x y [e])).
Proof.
  intros Hx [Hiso Hty]. unfold marker_step, poolOf. cbn [pdate kind].
  rewrite (findIndex_aligned x (date e) Hx Hiso).
  unfold markersOf, aligned. cbn [omap list_omap].
  destruct (firstOnOrAfter x (date e)) as [[k d]|] eqn:Hfind.
  - assert (Hk : x !! k = Some d) by (apply list_find_Some in Hfind; tauto).
    replace (Z.of_nat k =? -1) with false by (symmetry; apply Z.eqb_neq; lia).
    rewrite Nat2Z.id, Hk.
    destruct Hty as [-> | ->]; cbn; rewrite !app_nil_r; reflexivity.
  - cbn. destruct (String.eqb (type e) "peak"), (String.eqb (type e) "trough");
      cbn; rewrite !app_nil_r; destruct m; reflexivity.
Qed.

Lemma markersOf_cons (ty : string) (x : list string) (y : list num) (e : GwEvent)
      (rest : list GwEvent) :
  markersOf ty x y (e :: rest) = markersOf ty x y [e] ++ markersOf ty x y rest.
Proof.
  unfold markersOf. cbn [omap list_omap].
  destruct (String.eqb (type e) ty); [destruct (aligned x y (date e))|]; reflexivity.
Qed.

Lemma marker_fold (x : list string) (y : list num) (evs : list GwEvent) (m : Markers) :
  Forall isIsoDate x -> Forall wellFormed evs ->
  fold_left (marker_step x y) (map poolOf evs) m
  = mkMarkers
      (peaksX m ++ ((Some ∘ fst) <$> markersOf "peak" x y evs))
      (peaksY m ++ (snd <$> markersOf "peak" x y evs))
      (troughX m ++ ((Some ∘ fst) <$> markersOf "trough" x y evs))
      (troughY m ++ (snd <$> markersOf "trough" x y evs)).
Proof.
  intros Hx Hevs. revert m. induction Hevs as [|e rest He _ IH]; intros m.
  - cbn. rewrite !app_nil_r. destruct m; reflexivity.
  - cbn [map fold_left]. rewrite IH, (marker_step_aligned x y m e Hx He).
    cbn [peaksX peaksY troughX troughY].
    rewrite !(markersOf_cons _ x y e rest), !fmap_app, <- !app_assoc. reflexivity.
Qed.
End MarkerFold.

Lemma onOrBefore_trans (a b c : string) : onOrBefore a b -> onOrBefore b c -> onOrBefore a c.
Proof.
  unfold onOrBefore. destruct (isoDay a), (isoDay b), (isoDay c); try tauto. lia.
Qed.

Lemma not_onOrBefore (a b : string) :
  isIsoDate a -> isIsoDate b -> (~ onOrBefore a b <-> before b a).
Proof.
  intros [da Ha] [db Hb]. unfold onOrBefore, before. rewrite Ha, Hb. lia.
Qed.

(** In an ascending series every observation is on or before the last one. *)
Lemma last_is_latest (x : list string) (lastDate : string) :
  ascending x -> Forall isIsoDate x -> last x = Some lastDate ->
  Forall (fun d => onOrBefore d lastDate) x.
Proof.
  intros Hasc Hiso Hlast.
  apply (Sorted_StronglySorted onOrBefore_trans) in Hasc.
  induction Hasc as [|d rest Hrest IH Hd]; [constructor|].
  inversion Hiso as [|? ? [day Hday] Hiso']; subst.
  destruct rest as [|d' rest'].
  - injection Hlast as <-. constructor; [|constructor].
    unfold onOrBefore. rewrite Hday. lia.
  - specialize (IH Hiso' Hlast). constructor; [|exact IH].
    inversion Hd as [|? ? Hdd' _]; subst. inversion IH; subst.
    eapply onOrBefore_trans; eassumption.
Qed.

Lemma gwSignalTraces_some {num : Type} {N : Number num}
    (bench : ReturnsResp num) (gwData : list (string * GlobalWaveResp)) :
  dates bench <> [] -> ret bench <> [] ->
  gwSignalTraces (Some bench) gwData
  = Some (mkSignalTraces (dates bench) (toCum (ret bench))
            (fold_left (marker_step (dates bench) (toCum (ret bench))) (eventPool gwData)
               (mkMarkers [] [] [] []))
            (map (fun e => (kind e, pdate e)) (eventPool gwData))).
Proof.
  intros Hx Hr. unfold gwSignalTraces.
  destruct (dates bench) as [|d0 ds]; [contradiction|].
  destruct (ret bench) as [|r0 rs]; [contradiction|]. reflexivity.
Qed.

(** C7.  For a benchmark series with calendar dates (YYYY-MM-DD) and
    well-formed events, the marker series of each kind hold, in the order
    of the events, the marker of every event that has an alignment target:
    the date of the first observation on or after the date of the event and
    the value of the cumulative curve at that observation.  An event with no
    such observation contributes no marker and raises nothing; in an
    ascending series these are the events dated after the last observation. *)
Theorem gwSignalTraces_alignment {num : Type} {N : Number num}
    (bench : ReturnsResp num) (anyFactor : string) (evs : list GwEvent)
    (others : list (string * GlobalWaveResp)) :
  dates bench <> [] -> ret bench <> [] -> anyFactor <> ""%string ->
  Forall isIsoDate (dates bench) -> Forall wellFormed evs ->
  exists tr : SignalTraces,
    gwSignalTraces (Some bench) ((anyFactor, mkGlobalWaveResp (Some evs)) :: others) = Some tr
    /\ peaksX (markers tr)
       = (Some ∘ fst) <$> markersOf "peak" (dates bench) (toCum (ret bench)) evs
    /\ peaksY (markers tr)
       = snd <$> markersOf "peak" (dates bench) (toCum (ret bench)) evs
    /\ troughX (markers tr)
       = (Some ∘ fst) <$> markersOf "trough" (dates bench) (toCum (ret bench)) evs
    /\ troughY (markers tr)
       = snd <$> markersOf "trough" (dates bench) (toCum (ret bench)) evs
    /\ (forall e i d, e ∈ evs ->
          firstOnOrAfter (dates bench) (date e) = Some (i, d)
          <-> dates bench !! i = Some d /\ onOrBefore (date e) d
              /\ forall j d', dates bench !! j = Some d' -> (j < i)%nat -> before d' (date e))
    /\ (ascending (dates bench) ->
        forall e lastDate, e ∈ evs ->
          last (dates bench) = Some lastDate -> before lastDate (date e) ->
          aligned (dates bench) (toCum (ret bench)) (date e) = None).
Proof.
  intros Hx Hr Hname Hiso Hevs.
  eexists. split; [apply (gwSignalTraces_some bench _ Hx Hr)|].
  assert (Hm : fold_left (marker_step (dates bench) (toCum (ret bench)))
                 (eventPool ((anyFactor, mkGlobalWaveResp (Some evs)) :: others))
                 (mkMarkers [] [] [] [])
               = mkMarkers
                   ((Some ∘ fst) <$> markersOf "peak" (dates bench) (toCum (ret bench)) evs)
                   (snd <$> markersOf "peak" (dates bench) (toCum (ret bench)) evs)
                   ((Some ∘ fst) <$> markersOf "trough" (dates bench) (toCum (ret bench)) evs)
                   (snd <$> markersOf "trough" (dates bench) (toCum (ret bench)) evs)).
  { unfold eventPool.
    replace (String.eqb anyFactor "") with false
      by (symmetry; apply String.eqb_neq; exact Hname).
    cbn [negb events]. rewrite (pool_of_well_formed evs [] Hevs). cbn [app].
    rewrite (marker_fold _ _ evs _ Hiso Hevs). reflexivity. }
  cbn [markers]. rewrite Hm. cbn [peaksX peaksY troughX troughY].
  split; [reflexivity|]. split; [reflexivity|]. split; [reflexivity|].
  split; [reflexivity|]. split.
  - intros e i d He. unfold firstOnOrAfter. rewrite list_find_Some.
    assert (He' : isIsoDate (date e)).
    { rewrite Forall_forall in Hevs. apply (Hevs e He). }
    split; intros (Hi & Hd & Hfirst); (split; [exact Hi|split; [exact Hd|]]);
      intros j d' Hj Hlt; specialize (Hfirst j d' Hj Hlt);
      assert (Hd' : isIsoDate d')
        by (rewrite Forall_forall in Hiso; apply Hiso; eapply list_elem_of_lookup_2; exact Hj);
      apply (not_onOrBefore (date e) d' He' Hd'); exact Hfirst.
  - intros Hasc e lastDate He Hlast Hafter. unfold aligned, firstOnOrAfter.
    assert (He' : isIsoDate (date e)).
    { rewrite Forall_forall in Hevs. apply (Hevs e He). }
    replace (list_find (onOrBefore (date e)) (dates bench)) with (@None (nat * string));
      [reflexivity|].
    symmetry. apply list_find_None.
    pose proof (last_is_latest _ _ Hasc Hiso Hlast) as Hle.
    rewrite Forall_forall in Hle, Hiso. apply Forall_forall. intros d Hd.
    apply (not_onOrBefore (date e) d He' (Hiso d Hd)).
    specialize (Hle d Hd). unfold onOrBefore, before in *.
    destruct (isoDay d), (isoDay lastDate), (isoDay (date e)); try tauto. lia.
Qed.

(** The scenario of the specification: an event on 2020-03-15, a Sunday,
    is attributed to 2020-03-16. *)
Lemma gwSignalTraces_alignment_witness :
  exists tr : SignalTraces,
    gwSignalTraces (N := Binary64.binary64 (fun base _ => base))
      (Some (mkReturnsResp None (Some "Top300"%string)
               ["2020-03-13"; "2020-03-16"; "2020-03-20"]%string
               [0.01; -0.02; 0.03]%float))
      [("Top300"%string, mkGlobalWaveResp (Some [mkGwEvent "peak" "2020-03-15"]))]
    = Some tr
    /\ peaksX (markers tr) = [Some "2020-03-16"%string]
    /\ peaksY (markers tr) = [Some 0.98980000000000001%float]
    /\ troughX (markers tr) = [].
Proof.
  destruct (gwSignalTraces_alignment (N := Binary64.binary64 (fun base _ => base))
              (mkReturnsResp None (Some "Top300"%string)
                 ["2020-03-13"; "2020-03-16"; "2020-03-20"]%string
                 [0.01; -0.02; 0.03]%float)
              "Top300" [mkGwEvent "peak" "2020-03-15"] [])
    as (tr & Htr & Hpx & Hpy & Htx & _).
  - discriminate.
  - discriminate.
  - discriminate.
  - repeat first [apply List.Forall_nil | apply List.Forall_cons; [eexists; reflexivity|]].
  - apply List.Forall_cons; [|apply List.Forall_nil].
    split; [eexists; reflexivity | left; reflexivity].
  - exists tr. split; [exact Htr|]. rewrite Hpx, Hpy, Htx. vm_compute. repeat split.
Defined.
End AlignmentFacts.

(** ** The rank heatmap encoder *)

Section MatrixFacts.
Import Heatmap.
Context {A : Type} (g : nat -> nat -> A).

(** The inner loop, over the rows [k .. k + n) of one column. *)
Lemma rows_loop (c n k : nat) (z : list (list A)) (r : nat) :
  fold_left (fun z row => set_cell z row c (g row c)) (seq k n) z !! r
  = if decide (k <= r < k + n)
    then (fun cells => <[c := g r c]> cells) <$> z !! r
    else z !! r.
Proof.
  revert k z. induction n as [|n IH]; intros k z; cbn [seq fold_left].
  - rewrite decide_False by lia. reflexivity.
  - rewrite IH. unfold set_cell. rewrite list_lookup_alter.
    destruct (decide (k = r)) as [->|Hne].
    + rewrite decide_False, decide_True by lia. reflexivity.
    + destruct (decide (S k <= r < S k + n)); [rewrite decide_True by lia | rewrite decide_False by lia];
        reflexivity.
Qed.

(** The outer loop, over the columns [k .. k + m), seen from one row. *)
Lemma cols_loop (N m k : nat) (z : list (list A)) (r : nat) :
  r < N ->
  fold_left
    (fun z col => fold_left (fun z row => set_cell z row col (g row col)) (seq 0 N) z)
    (seq k m) z !! r
  = (fun cells => fold_left (fun cells c => <[c := g r c]> cells) (seq k m) cells) <$> z !! r.
Proof.
  intros Hr. revert k z. induction m as [|m IH]; intros k z; cbn [seq fold_left].
  - destruct (z !! r); reflexivity.
  - rewrite IH, rows_loop, decide_True by lia. destruct (z !! r); reflexivity.
Qed.

(** The writes into one row. *)
Lemma row_writes (f : nat -> A) (m k : nat) (cells : list A) (c : nat) :
  fold_left (fun cells c => <[c := f c]> cells) (seq k m) cells !! c
  = if decide (k <= c < k + m /\ c < length cells) then Some (f c) else cells !! c.
Proof.
  revert k cells. induction m as [|m IH]; intros k cells; cbn [seq fold_left].
  - rewrite decide_False by lia. reflexivity.
  - rewrite IH, length_insert, list_lookup_insert.
    destruct (decide (k = c /\ k < length cells)) as [[-> Hlt]|Hne].
    + rewrite decide_False, decide_True by lia. reflexivity.
    + destruct (decide (S k <= c < S k + m /\ c < length cells));
        [rewrite decide_True by lia; reflexivity|].
      destruct (decide (k <= c < k + S m /\ c < length cells)); [|reflexivity].
      exfalso. lia.
Qed.

(** After the two loops every cell of the matrix holds its value. *)
Lemma fill_lookup (v0 : A) (N M row col : nat) :
  row < N -> col < M ->
  fold_left
    (fun z col => fold_left (fun z row => set_cell z row col (g row col)) (seq 0 N) z)
    (seq 0 M) (replicate N (replicate M v0)) !! row ≫= (fun cells => cells !! col)
  = Some (g row col).
Proof.
  intros Hrow Hcol. rewrite (cols_loop N M 0 _ row Hrow), lookup_replicate_2 by exact Hrow.
  cbn [fmap option_fmap option_map mbind option_bind].
  rewrite row_writes, length_replicate, decide_True by lia. reflexivity.
Qed.
End MatrixFacts.

Section EncoderFacts.
Import Heatmap.
Local Open Scope string_scope.

Lemma fold_left_pair {S1 S2 I : Type} (f : S1 -> I -> S1) (g : S2 -> I -> S2)
      (l : list I) (a : S1) (b : S2) :
  fold_left (fun st i => (f st.1 i, g st.2 i)) l (a, b) = (fold_left f l a, fold_left g l b).
Proof. revert a b. induction l as [|i rest IH]; intros a b; [reflexivity|apply IH]. Qed.

(** The loops of [encode] update [z] and [text] independently. *)
Lemma encode_split (cellText : string -> Cell -> string) (h : HeatmapResp) :
  encode cellText h
  = (fold_left
       (fun z col =>
          fold_left (fun z row => set_cell z row col (codeAt h row col)) (seq 0 (rankCount h)) z)
       (seq 0 (length (months h)))
       (replicate (rankCount h) (replicate (length (months h)) (Code 0))),
     fold_left
       (fun t col =>
          fold_left
            (fun t row => set_cell t row col (cellText (labelAt h row col) (valueAt h row col)))
            (seq 0 (rankCount h)) t)
       (seq 0 (length (months h)))
       (replicate (rankCount h) (replicate (length (months h)) ""))).
Proof.
  unfold encode.
  rewrite <- (fold_left_pair
    (fun z col =>
       fold_left (fun z row => set_cell z row col (codeAt h row col)) (seq 0 (rankCount h)) z)
    (fun t col =>
       fold_left
         (fun t row => set_cell t row col (cellText (labelAt h row col) (valueAt h row col)))
         (seq 0 (rankCount h)) t)).
  generalize (replicate (rankCount h) (replicate (length (months h)) (Code 0)),
              replicate (rankCount h) (replicate (length (months h)) "")).
  induction (seq 0 (length (months h))) as [|col cols IH]; intros st; [reflexivity|].
  cbn [fold_left]. rewrite IH. f_equal.
  destruct st as [z t]. rewrite <- fold_left_pair. reflexivity.
Qed.

(** Every cell of [z] holds the code of its label, and every cell of
    [text] the text of its label and value. *)
Lemma encode_cells (cellText : string -> Cell -> string) (h : HeatmapResp) (row col : nat) :
  row < rankCount h -> col < length (months h) ->
  (encode cellText h).1 !! row ≫= (fun cells => cells !! col) = Some (codeAt h row col)
  /\ (encode cellText h).2 !! row ≫= (fun cells => cells !! col)
     = Some (cellText (labelAt h row col) (valueAt h row col)).
Proof.
  intros Hrow Hcol. rewrite encode_split. cbn [fst snd]. split.
  - apply (fill_lookup (fun row col => codeAt h row col)); assumption.
  - apply (fill_lookup (fun row col => cellText (labelAt h row col) (valueAt h row col)));
      assumption.
Qed.
End EncoderFacts.

Section CodeFacts.
Import Heatmap.
Local Open Scope string_scope.
Local Open Scope Z_scope.

(** Nothing is ever stored under the key [__proto__]. *)
Lemma forEach_assign_proto (l : list string) (o : gmap string Z) (i : Z) :
  forEach_assign o l i !! "__proto__" = o !! "__proto__".
Proof.
  revert o i. induction l as [|f rest IH]; intros o i; [reflexivity|].
  cbn [forEach_assign]. rewrite IH. unfold assign.
  destruct (String.eqb_spec f "__proto__") as [->|Hne]; [reflexivity|].
  apply lookup_insert_ne. exact Hne.
Qed.

(** Under any other key the loop leaves the index of the last occurrence of
    the key in the list, and no property when the key is not in the list. *)
Lemma forEach_assign_lookup (l : list string) (o : gmap string Z) (i : Z) (key : string) :
  key <> "__proto__" ->
  (key ∈ l -> exists j : nat, l !! j = Some key /\ forEach_assign o l i !! key = Some (i + Z.of_nat j))
  /\ (key ∉ l -> forEach_assign o l i !! key = o !! key).
Proof.
  intros Hkey. revert o i. induction l as [|f rest IH]; intros o i.
  - split; [intros Hin; inversion Hin | reflexivity].
  - cbn [forEach_assign]. destruct (IH (assign o f i) (i + 1)) as [IHin IHout].
    destruct (decide (key ∈ rest)) as [Hrest|Hrest].
    + split; [intros _ | intros Hnot; exfalso; apply Hnot; right; exact Hrest].
      destruct (IHin Hrest) as (j & Hj & Hlook).
      exists (S j). split; [exact Hj|]. rewrite Hlook. f_equal. lia.
    + rewrite (IHout Hrest). unfold assign.
      destruct (decide (f = key)) as [->|Hne].
      * split; [intros _ | intros Hnot; exfalso; apply Hnot; left].
        exists 0%nat. split; [reflexivity|].
        replace (String.eqb key "__proto__") with false
          by (symmetry; apply String.eqb_neq; exact Hkey).
        rewrite lookup_insert_eq. f_equal. lia.
      * split; [intros Hin; apply elem_of_cons in Hin as [->|Hin]; [congruence | contradiction]|].
        intros _. destruct (String.eqb f "__proto__"); [reflexivity|].
        apply lookup_insert_ne. exact Hne.
Qed.

(** X1 (beside C9).  On every label other than the names of
    [Object.prototype] the encoding is as C9 says.  A label of the category list is
    coded by an index at which the list holds that label, so decoding the
    cell reproduces the label; a label outside the list, that is no member
    of [Object.prototype] either, is coded by the sentinel -1. *)
Theorem codeAt_round_trip (h : HeatmapResp) (row col : nat) :
  (labelAt h row col <> "__proto__" -> labelAt h row col ∈ factorList h ->
     exists i : Z, codeAt h row col = Code i
       /\ decode h (codeAt h row col) = Some (labelAt h row col))
  /\ (labelAt h row col ∉ objectPrototypeKeys -> labelAt h row col ∉ factorList h ->
       codeAt h row col = Code (-1)).
Proof.
  unfold codeAt, factorToCode, get. split.
  - intros Hkey Hin.
    destruct (forEach_assign_lookup (factorList h) ∅ 0 _ Hkey) as [Hfound _].
    destruct (Hfound Hin) as (j & Hj & ->). cbn.
    exists (Z.of_nat j). split; [reflexivity|]. rewrite Z.add_0_l.
    replace (0 <=? Z.of_nat j) with true by (symmetry; apply Z.leb_le; lia).
    rewrite Nat2Z.id. exact Hj.
  - intros Hproto Hout.
    assert (Hkey : labelAt h row col <> "__proto__").
    { intros Heq. apply Hproto. rewrite Heq. unfold objectPrototypeKeys.
      do 7 right. left. }
    destruct (forEach_assign_lookup (factorList h) ∅ 0 _ Hkey) as [_ Hmiss].
    rewrite (Hmiss Hout), lookup_empty, bool_decide_eq_false_2 by exact Hproto. reflexivity.
Qed.

Lemma codeAt_round_trip_witness :
  let h := mkHeatmapResp ["2024-01"] [["B"; "A"]] None (Some ["A"; "B"]) in
  codeAt h 0 0 = Code 1 /\ decode h (codeAt h 0 0) = Some "B".
Proof.
  intros h.
  destruct (proj1 (codeAt_round_trip h 0 0)) as (i & Hi & Hdec).
  - discriminate.
  - right. left.
  - split; [reflexivity | exact Hdec].
Defined.

(** C9, on an input where the code departs from it.  The label
    [__proto__] is in the category list, yet its cell holds the prototype
    object and not its index, and decoding does not give the label back;
    the label [constructor] is not in the list, yet its cell holds the
    inherited constructor and not the sentinel -1. *)
Theorem factorToCode_prototype_collision (cellText : string -> Cell -> string) :
  let h := mkHeatmapResp ["2024-01"] [["__proto__"; "constructor"; "A"]] None
             (Some ["__proto__"; "A"]) in
  (encode cellText h).1 = [[Inherited "__proto__"]; [Inherited "constructor"]; [Code 1]]
  /\ "__proto__" ∈ factorList h
  /\ decode h (Inherited "__proto__") = None
  /\ "constructor" ∉ factorList h.
Proof.
  intros h. split; [|split; [|split]].
  - rewrite encode_split. cbn [fst]. vm_compute. reflexivity.
  - left.
  - reflexivity.
  - intros Hin. apply elem_of_cons in Hin as [Heq|Hin]; [discriminate Heq|].
    apply elem_of_cons in Hin as [Heq|Hin]; [discriminate Heq|]. inversion Hin.
Qed.
End CodeFacts.

Section CellTextFacts.
Import Heatmap.
Local Open Scope string_scope.
Variable Number_toString : float -> string.

(** A formatted percentage ends in the percent sign: it is never "NA". *)
Lemma percent_not_NA (s : string) : s ++ "%" <> "NA".
Proof.
  destruct s as [|a [|b s']]; cbn; try discriminate.
  intros H. injection H as _ _ H. destruct s'; discriminate H.
Qed.

(** X5 (beside C10).  The text of page.tsx shows "NA" exactly for null
    and undefined. *)
Lemma pct_page_NA (r : Cell) :
  pct_page Number_toString r = "NA" <-> r = Null \/ r = Undefined.
Proof.
  destruct r as [| |x]; cbn [pct_page].
  - split; [left; reflexivity | reflexivity].
  - split; [right; reflexivity | reflexivity].
  - split; [intros H; exfalso; exact (percent_not_NA _ H) | intros [H|H]; discriminate H].
Qed.

(** X2 (beside C10).  The form of part_001 is as C10 says.  The
    text of every cell is made of the label and of the percentage text,
    which is the marker "NA" exactly when the value is null, undefined or
    NaN, and the value times 100 with two decimals and a percent sign
    otherwise. *)
Theorem cellText_part_001_spec (h : HeatmapResp) (row col : nat) :
  row < rankCount h -> col < length (months h) ->
  let fname := labelAt h row col in
  let r := valueAt h row col in
  (encode (cellText_part_001 Number_toString) h).2 !! row ≫= (fun cells => cells !! col)
  = Some (("<span style=" ++ dquote ++ "font-size:10px; font-weight:520" ++ dquote ++ ">"
             ++ fname ++ "</span><br>")
          ++ ("<span style=" ++ dquote ++ "font-size:11px; font-weight:530" ++ dquote ++ ">"
             ++ pct_part_001 Number_toString r ++ "</span>"))
  /\ (pct_part_001 Number_toString r = "NA"
      <-> r = Null \/ r = Undefined \/ exists x, r = Num x /\ is_nan x = true)
  /\ (forall x, r = Num x -> is_nan x = false ->
        pct_part_001 Number_toString r = toFixed Number_toString (x * 100)%float 2 ++ "%").
Proof.
  intros Hrow Hcol fname r. split; [|split].
  - apply (encode_cells (cellText_part_001 Number_toString) h row col Hrow Hcol).
  - destruct r as [| |x]; cbn [pct_part_001].
    + split; [left; reflexivity | reflexivity].
    + split; [right; left; reflexivity | reflexivity].
    + destruct (is_nan x) eqn:Hnan.
      * split; [intros _; right; right; exists x; split; [reflexivity | exact Hnan] | reflexivity].
      * split; [intros H; exfalso; exact (percent_not_NA _ H)|].
        intros [H|[H|(y & H & Hy)]]; try discriminate H.
        injection H as <-. rewrite Hnan in Hy. discriminate Hy.
  - intros x Hr Hnan. rewrite Hr. cbn [pct_part_001]. rewrite Hnan. reflexivity.
Qed.


(** The value NaN, which no JSON text denotes and which the artifact thus
    never delivers, is where the two forms would part: page.tsx would
    print "NaN%", part_001 tests [Number.isNaN] and prints "NA". *)
Remark cellText_page_NaN :
  let h := mkHeatmapResp ["2024-01"] [["A"]] (Some [[Num nan]]) (Some ["A"]) in
  (encode (cellText_page Number_toString) h).2
  = [["<b style=" ++ dquote ++ "font-size:11px" ++ dquote ++ ">A</b><br>NaN%"]]
  /\ pct_page Number_toString (valueAt h 0 0) = "NaN%"
  /\ pct_part_001 Number_toString (valueAt h 0 0) = "NA".
Proof.
  intros h. split; [|split].
  - rewrite encode_split. cbn [snd]. vm_compute. reflexivity.
  - vm_compute. reflexivity.
  - vm_compute. reflexivity.
Qed.
End CellTextFacts.

Section CellTextWitness.
Import Heatmap.
Local Open Scope string_scope.

Lemma cellText_part_001_spec_witness :
  let h := mkHeatmapResp ["2024-01"] [["B"; "A"]] (Some [[Num 0.0123; Null]]) (Some ["A"; "B"]) in
  (encode (cellText_part_001 (fun _ => "")) h).2 !! 0%nat ≫= (fun cells => cells !! 0%nat)
  = Some ("<span style=" ++ dquote ++ "font-size:10px; font-weight:520" ++ dquote
          ++ ">B</span><br><span style=" ++ dquote ++ "font-size:11px; font-weight:530"
          ++ dquote ++ ">1.23%</span>").
Proof.
  intros h.
  destruct (cellText_part_001_spec (fun _ => "") h 0 0) as (Htext & _ & _).
  - cbn. lia.
  - cbn. lia.
  - rewrite Htext. vm_compute. reflexivity.
Defined.

End CellTextWitness.

(** ** The date range filter: shape of the result and composition *)

Section DateRangeComposition.
Import Series.
Variable Date_getTime : string -> TimeValue.
Context {V : Type} (undefined : V).

Abbreviation clip := (clipByRange Date_getTime undefined).
Abbreviation obs := (observations undefined).
Abbreviation keep s e := (fun o : string * V => inRange Date_getTime s e o.1).

Lemma clip_unparsed (d : ReturnsResp V) (start end_ : string) :
  parseDate Date_getTime start = None \/ parseDate Date_getTime end_ = None ->
  clip d start end_ = d.
Proof.
  intros [H|H]; unfold clipByRange; rewrite H; [reflexivity|].
  destruct (parseDate Date_getTime start); reflexivity.
Qed.

Lemma filter_comm {A : Type} (p q : A -> bool) (l : list A) :
  List.filter p (List.filter q l) = List.filter q (List.filter p l).
Proof.
  induction l as [|a rest IH]; [reflexivity|]. cbn.
  destruct (p a) eqn:Hp, (q a) eqn:Hq; cbn; rewrite ?Hp, ?Hq, IH; reflexivity.
Qed.

Lemma filter_absorb {A : Type} (p q : A -> bool) (l : list A) :
  (forall a, p a = true -> q a = true) ->
  List.filter p (List.filter q l) = List.filter p l.
Proof.
  intros Hpq. induction l as [|a rest IH]; [reflexivity|]. cbn.
  destruct (q a) eqn:Hq; cbn.
  - rewrite IH. reflexivity.
  - destruct (p a) eqn:Hp; [|exact IH]. rewrite (Hpq a Hp) in Hq. discriminate Hq.
Qed.

(** A filter of a filter: the observations that pass both tests. *)
Lemma clip_clip (d : ReturnsResp V) (a b c e : string) (s1 e1 s2 e2 : Z) :
  parseDate Date_getTime a = Some s1 -> parseDate Date_getTime b = Some e1 ->
  parseDate Date_getTime c = Some s2 -> parseDate Date_getTime e = Some e2 ->
  clip (clip d a b) c e
  = mkReturnsResp (name d) (factor d)
      (List.filter (keep s2 e2) (List.filter (keep s1 e1) (obs d))).*1
      (List.filter (keep s2 e2) (List.filter (keep s1 e1) (obs d))).*2.
Proof.
  intros Ha Hb Hc He.
  rewrite (clip_between Date_getTime undefined d a b s1 e1 Ha Hb).
  rewrite (clip_between Date_getTime undefined _ c e s2 e2 Hc He). cbn [name factor].
  rewrite obs_of_pairs. reflexivity.
Qed.

(** X6.  Two date range filters commute: filtering by the range [a, b]
    and then by [c, e] gives the same series as filtering by [c, e] and
    then by [a, b], whatever the four bound strings are. *)
Theorem clipByRange_commutes (d : ReturnsResp V) (a b c e : string) :
  clip (clip d a b) c e = clip (clip d c e) a b.
Proof.
  destruct (parseDate Date_getTime a) as [s1|] eqn:Ha.
  2:{ rewrite !(clip_unparsed _ a b) by (left; exact Ha). reflexivity. }
  destruct (parseDate Date_getTime b) as [e1|] eqn:Hb.
  2:{ rewrite !(clip_unparsed _ a b) by (right; exact Hb). reflexivity. }
  destruct (parseDate Date_getTime c) as [s2|] eqn:Hc.
  2:{ rewrite !(clip_unparsed _ c e) by (left; exact Hc). reflexivity. }
  destruct (parseDate Date_getTime e) as [e2|] eqn:He.
  2:{ rewrite !(clip_unparsed _ c e) by (right; exact He). reflexivity. }
  rewrite (clip_clip d a b c e s1 e1 s2 e2 Ha Hb Hc He).
  rewrite (clip_clip d c e a b s2 e2 s1 e1 Hc He Ha Hb).
  rewrite filter_comm. reflexivity.
Qed.

(** X7.  Narrowing: when the four bounds parse and the range [c, e] lies
    inside the range [a, b], filtering by [a, b] first changes nothing:
    the result is the series filtered by [c, e]. *)
Theorem clipByRange_nested (d : ReturnsResp V) (a b c e : string) (s1 e1 s2 e2 : Z) :
  parseDate Date_getTime a = Some s1 -> parseDate Date_getTime b = Some e1 ->
  parseDate Date_getTime c = Some s2 -> parseDate Date_getTime e = Some e2 ->
  (s1 <= s2)%Z -> (e2 <= e1)%Z ->
  clip (clip d a b) c e = clip d c e.
Proof.
  intros Ha Hb Hc He Hs Hend.
  rewrite (clip_clip d a b c e s1 e1 s2 e2 Ha Hb Hc He).
  rewrite (clip_between Date_getTime undefined d c e s2 e2 Hc He).
  rewrite filter_absorb; [reflexivity|].
  intros [date_i v]. unfold inRange. cbn [fst].
  destruct (parseDate Date_getTime date_i) as [di|]; [|discriminate].
  intros Hin. apply andb_true_iff in Hin as [H1 H2].
  apply Z.leb_le in H1, H2. apply andb_true_iff. split; apply Z.leb_le; lia.
Qed.

Lemma filter_sublist {A : Type} (p : A -> bool) (l : list A) : sublist (List.filter p l) l.
Proof.
  induction l as [|a rest IH]; [constructor|]. cbn.
  destruct (p a); [apply sublist_skip | apply sublist_cons]; exact IH.
Qed.

Lemma imap_pair_fst {A B : Type} (g : nat -> B) (l : list A) :
  (imap (fun i a => (a, g i)) l).*1 = l.
Proof.
  revert g. induction l as [|a rest IH]; intros g; [reflexivity|].
  cbn [imap fmap list_fmap fst]. f_equal. apply (IH (g ∘ S)).
Qed.

Lemma obs_dates (d : ReturnsResp V) : (obs d).*1 = dates d.
Proof. apply (imap_pair_fst (fun i => default undefined (ret d !! i))). Qed.

(** X8.  When both bounds parse, the filtered series is rectangular (it
    has one slot of [ret] for each date, also when the input had not), its
    dates are dates of the input in their order (none is invented, none is
    moved), each of them parses to a time between the two bounds, and a
    start bound after the end bound leaves no observation. *)
Theorem clipByRange_shape (d : ReturnsResp V) (start end_ : string) (s e : Z) :
  parseDate Date_getTime start = Some s -> parseDate Date_getTime end_ = Some e ->
  length (ret (clip d start end_)) = length (dates (clip d start end_))
  /\ sublist (dates (clip d start end_)) (dates d)
  /\ Forall (fun date_i => exists t, parseDate Date_getTime date_i = Some t /\ (s <= t <= e)%Z)
       (dates (clip d start end_))
  /\ ((e < s)%Z -> dates (clip d start end_) = [] /\ ret (clip d start end_) = []).
Proof.
  intros Hs He. rewrite (clip_between Date_getTime undefined d start end_ s e Hs He).
  cbn [dates ret]. split; [|split; [|split]].
  - rewrite !length_fmap. reflexivity.
  - rewrite <- (obs_dates d). apply fmap_sublist, filter_sublist.
  - apply Forall_fmap, Forall_forall. intros [date_i v] Hin.
    apply list_elem_of_In, filter_In in Hin as [_ Hkeep].
    unfold inRange in Hkeep. cbn [fst] in *. cbn.
    destruct (parseDate Date_getTime date_i) as [t|]; [|discriminate Hkeep].
    apply andb_true_iff in Hkeep as [H1 H2]. apply Z.leb_le in H1, H2.
    exists t. split; [reflexivity | lia].
  - intros Hlt. assert (Hnone : List.filter (keep s e) (obs d) = []).
    { induction (obs d) as [|[date_i v] rest IH]; [reflexivity|]. cbn.
      replace (inRange Date_getTime s e date_i) with false; [exact IH|].
      unfold inRange. destruct (parseDate Date_getTime date_i) as [t|]; [|reflexivity].
      symmetry. apply andb_false_iff.
      destruct (Z.leb_spec s t); [right; apply Z.leb_gt; lia | left; reflexivity]. }
    rewrite Hnone. split; reflexivity.
Qed.
End DateRangeComposition.

Section DateRangeWitnesses.
Import Series.
Local Open Scope string_scope.

(** A parser for the witnesses: the day number of a calendar date. *)
Abbreviation dayParser :=
  (fun s : string => match GlobalWave.isoDay s with Some day => ms day | None => NaN_time end).

Abbreviation sample :=
  (mkReturnsResp None (Some "Top300") ["2020-01-02"; "not a date"; "2020-06-01"; "2021-01-04"]
     [1; 2; 3]%Z).

Lemma clipByRange_spec_witness :
  (dates (clipByRange dayParser 0%Z sample "2020-01-01" "2020-12-31")
   = ["2020-01-02"; "2020-06-01"]
   /\ ret (clipByRange dayParser 0%Z sample "2020-01-01" "2020-12-31") = [1; 3]%Z
   /\ ("not a date", 2%Z) ∉ zip (dates (clipByRange dayParser 0%Z sample "2020-01-01" "2020-12-31"))
                                 (ret (clipByRange dayParser 0%Z sample "2020-01-01" "2020-12-31")))
  /\ clipByRange dayParser 0%Z sample "someday" "2020-12-31" = sample.
Proof.
  split.
  - destruct (clipByRange_spec dayParser 0%Z sample "2020-01-01" "2020-12-31")
      as (Hdates & Hret & _ & _ & _ & Hdrop).
    split; [exact Hdates | split; [exact Hret|]].
    apply Hdrop; [|reflexivity]. right. left.
  - exact (clipByRange_spec dayParser 0%Z sample "someday" "2020-12-31").
Defined.

Lemma clipByRange_nested_witness :
  clipByRange dayParser 0%Z
    (clipByRange dayParser 0%Z sample "2020-01-01" "2020-12-31") "2020-03-01" "2020-12-31"
  = clipByRange dayParser 0%Z sample "2020-03-01" "2020-12-31".
Proof.
  apply (clipByRange_nested dayParser 0%Z sample
           "2020-01-01" "2020-12-31" "2020-03-01" "2020-12-31"
           20200101 20201231 20200301 20201231); try reflexivity; lia.
Defined.

Lemma clipByRange_shape_witness :
  dates (clipByRange dayParser 0%Z sample "2020-01-01" "2021-12-31")
  = ["2020-01-02"; "2020-06-01"; "2021-01-04"]
  /\ length (ret (clipByRange dayParser 0%Z sample "2020-01-01" "2021-12-31"))
     = length (dates (clipByRange dayParser 0%Z sample "2020-01-01" "2021-12-31")).
Proof.
  split; [reflexivity|].
  apply (clipByRange_shape dayParser 0%Z sample "2020-01-01" "2021-12-31" 20200101 20211231);
    reflexivity.
Defined.
End DateRangeWitnesses.

(** ** The curve and the metrics *)

Section CurveFacts.
Context {num : Type} {N : Number num}.
Local Open Scope js_scope.

Lemma length_toCum_from (v : num) (rs : list num) : length (toCum_from v rs) = length rs.
Proof. revert v. induction rs as [|r rest IH]; intros v; [reflexivity|]. cbn. rewrite IH. reflexivity. Qed.

Lemma length_toCum (rs : list num) : length (toCum rs) = length rs.
Proof. apply length_toCum_from. Qed.

Lemma last_toCum_from (v r : num) (rest : list num) :
  last (toCum_from v (r :: rest)) = Some (fold_left (fun nav r => nav * (1 + r)) (r :: rest) v).
Proof.
  revert v r. induction rest as [|r' rest IH]; intros v r; [reflexivity|].
  cbn [toCum_from]. rewrite last_cons_cons. apply (IH (v * (1 + r)) r').
Qed.

(** The curve of a series continued by another: the second part starts
    from the value that the first has reached. *)
Lemma toCum_from_app (v : num) (a b : list num) :
  toCum_from v (a ++ b)
  = toCum_from v a ++ toCum_from (fold_left (fun nav r => nav * (1 + r)) a v) b.
Proof.
  revert v. induction a as [|r rest IH]; intros v; [reflexivity|].
  cbn [app toCum_from fold_left]. f_equal. apply IH.
Qed.

(** The chart and the table agree.  The cumulative curve has one point
    for each return, and for a non-empty series the annualized return of
    the table is computed from the last point of the curve:
    last ^ (freq / n) - 1. *)
Corollary ann_return_of_curve (name : string) (r : num) (rest : list num) (rfAnnual freq : num) :
  length (toCum (r :: rest)) = length (r :: rest)
  /\ exists nav,
       last (toCum (r :: rest)) = Some nav
       /\ ann_return (calcMetricsFromDailyRet name (r :: rest) rfAnnual freq)
          = Math_pow nav (freq / count (r :: rest)) - 1.
Proof.
  split; [apply length_toCum_from|].
  eexists. split; [apply last_toCum_from | reflexivity].
Qed.

(** X28.  On every carrier (binary64 included), curves chain: the
    cumulative curve of a series continued by another begins with the
    curve of the first series, point for point (later returns do not move
    earlier points), and goes on as the curve of the second series started
    from the value that the first has reached, the product of its growth
    factors. *)
Theorem toCum_chain (a b : list num) :
  toCum (a ++ b) = toCum a ++ toCum_from (product (growth a)) b
  /\ take (length a) (toCum (a ++ b)) = toCum a
  /\ drop (length a) (toCum (a ++ b)) = toCum_from (product (growth a)) b.
Proof.
  assert (Hchain : toCum (a ++ b) = toCum a ++ toCum_from (product (growth a)) b).
  { unfold toCum, product. rewrite toCum_from_app, compound_product. reflexivity. }
  split; [exact Hchain|]. rewrite Hchain. split.
  - apply take_app_length'. symmetry. apply length_toCum.
  - apply drop_app_length'. symmetry. apply length_toCum.
Qed.
End CurveFacts.

Section RealMetricsMore.
Import ExactReals RealSpec.
Local Open Scope R_scope.

(** The walk keeps the value at least 0, the peak positive and the
    drawdown at least -1, as long as no return is below -1. *)
Lemma drawdown_fold_bounded (rs : list R) (st : DrawdownState) :
  Forall (fun r => -1 <= r) rs ->
  0 <= dd_nav st -> 0 < dd_peak st -> -1 <= dd_maxdd st ->
  -1 <= dd_maxdd (fold_left drawdown_step rs st).
Proof.
  intros Hrs. revert st. induction Hrs as [|r rest Hr _ IH]; intros st Hnav Hpeak Hdd;
    [exact Hdd|].
  cbn [fold_left]. rewrite drawdown_step_real. cbn zeta.
  assert (Hnav' : 0 <= dd_nav st * (1 + r)) by (apply Rmult_le_pos; lra).
  assert (Hpeak' : 0 < Rmax (dd_peak st) (dd_nav st * (1 + r))).
  { eapply Rlt_le_trans; [exact Hpeak | apply Rmax_l]. }
  apply IH; cbn [dd_nav dd_peak dd_maxdd]; [exact Hnav' | exact Hpeak' |].
  apply Rmin_glb; [exact Hdd|].
  assert (0 <= dd_nav st * (1 + r) / Rmax (dd_peak st) (dd_nav st * (1 + r))); [|lra].
  apply Rmult_le_pos; [exact Hnav'|]. left. apply Rinv_0_lt_compat. exact Hpeak'.
Qed.

(** X11.  Over the reals, when no return is below -100%, the maximum
    drawdown lies between -1 and 0: the loss from a peak is never more
    than the whole value. *)
Theorem maxDrawdown_at_least_minus_one (rs : list R) :
  Forall (fun r => -1 <= r) rs ->
  -1 <= maxDrawdownFromReturns rs <= 0.
Proof.
  intros Hrs. split.
  - unfold maxDrawdownFromReturns. apply drawdown_fold_bounded;
      cbn [dd_nav dd_peak dd_maxdd lit Rnum]; (exact Hrs || lra).
  - unfold maxDrawdownFromReturns. cbn [lit Rnum]. rewrite walk_is_fold. apply fold_Rmin_le.
Qed.

Lemma maxDrawdown_at_least_minus_one_witness :
  -1 <= maxDrawdownFromReturns [0.1; -0.5; 0.2] <= 0.
Proof.
  apply (maxDrawdown_at_least_minus_one [0.1; -0.5; 0.2]).
  repeat (apply List.Forall_cons; [lra|]). apply List.Forall_nil.
Defined.

(** The drawdown only deepens along the walk. *)
Lemma drawdown_fold_deepens (rs : list R) (st : DrawdownState) :
  dd_maxdd (fold_left drawdown_step rs st) <= dd_maxdd st.
Proof.
  revert st. induction rs as [|r rest IH]; intros st; [cbn; lra|].
  cbn [fold_left]. etransitivity; [apply IH|].
  rewrite drawdown_step_real. cbn [dd_maxdd]. apply Rmin_l.
Qed.

(** X27.  Over the reals, later returns can only deepen the maximum
    drawdown: the drawdown of a series continued by further returns is at
    most the drawdown of the series. *)
Theorem maxDrawdown_extends (rs more : list R) :
  maxDrawdownFromReturns (rs ++ more) <= maxDrawdownFromReturns rs.
Proof.
  unfold maxDrawdownFromReturns. rewrite fold_left_app. apply drawdown_fold_deepens.
Qed.

(** Real exponentiation by a positive exponent keeps a positive base on
    its side of 1. *)
Lemma Rpow_side (x y : R) :
  0 < x -> 0 < y ->
  0 < Rpow x y
  /\ (x < 1 -> Rpow x y < 1) /\ (x = 1 -> Rpow x y = 1) /\ (1 < x -> 1 < Rpow x y).
Proof.
  intros Hx Hy. unfold Rpow. destruct (Req_dec_T (frac_part y) 0) as [Hint|Hfrac].
  - unfold frac_part in Hint.
    assert (Hk : (0 < Int_part y)%Z) by (apply lt_IZR; lra).
    destruct (Int_part y) as [|k|k]; try lia. cbn [powerRZ].
    assert (Hn : (0 < Pos.to_nat k)%nat) by lia.
    split; [apply pow_lt; exact Hx|]. split; [|split].
    + intros Hlt. apply pow_lt_1_compat; [lra | exact Hn].
    + intros ->. apply pow1.
    + intros Hgt. apply Rlt_pow_R1; assumption.
  - unfold Rpower. split; [apply exp_pos|]. split; [|split].
    + intros Hlt. rewrite <- exp_0. apply exp_increasing.
      assert (ln x < 0) by (rewrite <- ln_1; apply ln_increasing; lra). nra.
    + intros ->. rewrite ln_1, Rmult_0_r. apply exp_0.
    + intros Hgt. rewrite <- exp_0. apply exp_increasing.
      assert (0 < ln x) by (rewrite <- ln_1; apply ln_increasing; lra). nra.
Qed.

Lemma product_growth_pos (rs : list R) (v : R) :
  0 < v -> Forall (fun r => -1 < r) rs -> 0 < fold_left Rmult (growth rs) v.
Proof.
  intros Hv Hrs. revert v Hv. induction Hrs as [|r rest Hr _ IH]; intros v Hv; [exact Hv|].
  cbn [growth map fold_left]. apply IH. cbn [lit Rnum num_add]. nra.
Qed.

(** X23.  Over the reals, for a positive periods-per-year constant and a
    non-empty series whose returns are all above -100%, the annualized
    return is at least -100%, and it is on the side of the total return:
    it is at most zero when the final value of the growth-of-1 curve (the
    product of the growth factors) is at most 1, and at least zero when
    that value is at least 1. *)
Theorem ann_return_sign (name : string) (r : R) (rest : list R) (rfAnnual freq : R) :
  0 < freq -> Forall (fun x => -1 < x) (r :: rest) ->
  let row := calcMetricsFromDailyRet name (r :: rest) rfAnnual freq in
  let nav := product (growth (r :: rest)) in
  -1 <= ann_return row
  /\ (nav <= 1 -> ann_return row <= 0)
  /\ (1 <= nav -> 0 <= ann_return row).
Proof.
  intros Hfreq Hrs row nav.
  assert (Hrow : ann_return row = Rpow nav (freq / count (r :: rest)) - 1).
  { subst row nav. unfold calcMetricsFromDailyRet. cbn [length Nat.eqb ann_return].
    rewrite compound_product. reflexivity. }
  assert (Hnav : 0 < nav).
  { subst nav. unfold product. apply product_growth_pos; [cbn; lra | exact Hrs]. }
  assert (Hexp : 0 < freq / count (r :: rest)).
  { unfold count. cbn [lit Rnum length]. rewrite <- INR_IZR_INZ, S_INR.
    pose proof (pos_INR (length rest)). apply Rdiv_lt_0_compat; lra. }
  destruct (Rpow_side nav _ Hnav Hexp) as (Hpos & Hlt & Heq & Hgt).
  rewrite Hrow. set (p := Rpow nav _) in *.
  split; [lra|].
  destruct (Rtotal_order nav 1) as [H|[H|H]].
  - specialize (Hlt H). split; intros; lra.
  - specialize (Heq H). split; intros; lra.
  - specialize (Hgt H). split; intros; lra.
Qed.

Lemma ann_return_sign_witness :
  let row := calcMetricsFromDailyRet "Top300" [0.01; -0.02; 0.03] 0 252 in
  -1 <= ann_return row.
Proof.
  apply (ann_return_sign "Top300" 0.01 [-0.02; 0.03] 0 252); [lra|].
  repeat (apply List.Forall_cons; [lra|]). apply List.Forall_nil.
Defined.
End RealMetricsMore.

(** ** The discrete colour scale *)

Section ColorscaleFacts.
Import Colorscale.
Context {num : Type} {N : Number num} {C : Type} (undefined : C).
Local Open Scope js_scope.

(** The loop over the indices [k .. k + |rest|), where [rest] is what is
    left of [colorList] from index [k] on. *)
Lemma colorscale_loop (colorList seen rest : list C) (cs : list (num * C)) :
  colorList = seen ++ rest ->
  fold_left (colorscale_step undefined colorList) (seq (length seen) (length rest)) cs
  = cs ++ bands (lit (Z.of_nat (length colorList))) (length seen) rest.
Proof.
  revert seen cs. induction rest as [|c rest IH]; intros seen cs Hl.
  - cbn. rewrite app_nil_r. reflexivity.
  - cbn [length seq fold_left bands].
    assert (Hc : colorList !! length seen = Some c).
    { rewrite Hl, lookup_app_r by lia. rewrite Nat.sub_diag. reflexivity. }
    specialize (IH (seen ++ [c])). rewrite length_app in IH. cbn [length] in IH.
    replace (length seen + 1)%nat with (S (length seen)) in IH by lia.
    rewrite IH by (rewrite <- app_assoc; exact Hl).
    unfold colorscale_step. rewrite Hc. cbn [default]. rewrite <- !app_assoc. reflexivity.
Qed.

Lemma bands_length (n : num) (k : nat) (colorList : list C) :
  length (bands n k colorList) = (2 * length colorList)%nat.
Proof.
  revert k. induction colorList as [|c rest IH]; intros k; [reflexivity|].
  cbn [bands length]. rewrite IH. lia.
Qed.

Lemma bands_lookup (n : num) (k i : nat) (colorList : list C) (c : C) :
  colorList !! i = Some c ->
  bands n k colorList !! (2 * i)%nat = Some (lit (Z.of_nat (k + i)) / n, c)
  /\ bands n k colorList !! (2 * i + 1)%nat = Some ((lit (Z.of_nat (k + i)) + 1) / n, c).
Proof.
  revert k i. induction colorList as [|c0 rest IH]; intros k i Hi; [discriminate Hi|].
  destruct i as [|i].
  - injection Hi as ->. rewrite Nat.add_0_r. split; reflexivity.
  - cbn in Hi. destruct (IH (S k) i Hi) as [H1 H2].
    replace (2 * S i)%nat with (S (S (2 * i))) by lia.
    replace (S (S (2 * i)) + 1)%nat with (S (S (2 * i + 1))) by lia.
    replace (k + S i)%nat with (S k + i)%nat by lia.
    cbn [bands lookup list_lookup]. split; assumption.
Qed.

Lemma colorscale_closed_form (colorList : list C) :
  makeDiscreteColorscale undefined colorList
  = bands (lit (Z.of_nat (length colorList))) 0 colorList.
Proof. exact (colorscale_loop colorList [] colorList [] eq_refl). Qed.

(** X12.  The colour scale gives each colour of the list, in order, one
    band of two stops that carry that colour: ([i / n], colour i) and
    ([(i + 1) / n], colour i), with n the number of colours.  It has 2n
    stops, and for no colour it is empty (nothing is divided by zero). *)
Theorem makeDiscreteColorscale_bands (colorList : list C) :
  makeDiscreteColorscale undefined colorList
  = bands (lit (Z.of_nat (length colorList))) 0 colorList
  /\ length (makeDiscreteColorscale undefined colorList) = (2 * length colorList)%nat
  /\ (forall i c, colorList !! i = Some c ->
        makeDiscreteColorscale undefined colorList !! (2 * i)%nat
        = Some (lit (Z.of_nat i) / lit (Z.of_nat (length colorList)), c)
        /\ makeDiscreteColorscale undefined colorList !! (2 * i + 1)%nat
           = Some ((lit (Z.of_nat i) + 1) / lit (Z.of_nat (length colorList)), c))
  /\ makeDiscreteColorscale undefined (@nil C) = [].
Proof.
  pose proof (colorscale_closed_form colorList) as Hbands.
  split; [exact Hbands|]. rewrite Hbands. split; [apply bands_length|].
  split; [|reflexivity].
  intros i c Hi. exact (bands_lookup _ 0 i colorList c Hi).
Qed.
End ColorscaleFacts.

Section ColorscaleOrder.
Import Colorscale ExactReals.
Context {C : Type} (undefined : C).
Local Open Scope R_scope.

Lemma bands_sorted (n : R) (k : nat) (colorList : list C) :
  0 < n ->
  Sorted Rle (bands n k colorList).*1 /\ HdRel Rle (INR k / n) (bands n k colorList).*1.
Proof.
  intros Hn. assert (Hinv : 0 < / n) by (apply Rinv_0_lt_compat; exact Hn).
  revert k. induction colorList as [|c rest IH]; intros k.
  - split; constructor.
  - destruct (IH (S k)) as [Hs Hh]. rewrite S_INR in Hh.
    cbn [bands fmap list_fmap fst lit Rnum num_div num_add]. rewrite <- INR_IZR_INZ.
    split.
    + constructor; [constructor; [exact Hs | exact Hh]|].
      constructor. unfold Rdiv. nra.
    + constructor. lra.
Qed.

Lemma bands_last (n : R) (k : nat) (c : C) (rest : list C) :
  last (bands n k (c :: rest)).*1 = Some ((INR (k + length rest) + 1) / n).
Proof.
  revert k c. induction rest as [|c' rest IH]; intros k c.
  - cbn [bands fmap list_fmap fst length last lit Rnum num_div num_add].
    rewrite <- INR_IZR_INZ, Nat.add_0_r. reflexivity.
  - change (bands n k (c :: c' :: rest))
      with ((lit (Z.of_nat k) / n, c)%js :: ((lit (Z.of_nat k) + 1) / n, c)%js
              :: bands n (S k) (c' :: rest)).
    cbn [fmap list_fmap]. rewrite !last_cons.
    change (list_fmap _ _ fst (bands n (S k) (c' :: rest)))
      with ((bands n (S k) (c' :: rest)).*1).
    rewrite (IH (S k) c'). cbn [length].
    replace (k + S (length rest))%nat with (S k + length rest)%nat by lia. reflexivity.
Qed.

(** X13.  Over the reals, the stops of the colour scale of a non-empty
    list ascend from 0 to 1; and the place [i / (n - 1)] of the code [i] on
    an axis that runs from code 0 to code n - 1 lies inside the band of
    colour [i]. *)
Theorem colorscale_ascending (c : C) (rest : list C) :
  let colorList := c :: rest in
  let scale := makeDiscreteColorscale undefined colorList in
  Sorted Rle scale.*1
  /\ head scale.*1 = Some 0
  /\ last scale.*1 = Some 1
  /\ (forall i ci, rest <> [] -> colorList !! i = Some ci ->
        exists a b,
          scale !! (2 * i)%nat = Some (a, ci) /\ scale !! (2 * i + 1)%nat = Some (b, ci)
          /\ a <= INR i / (INR (length colorList) - 1) <= b).
Proof.
  intros colorList scale. subst scale. rewrite colorscale_closed_form. subst colorList.
  cbn [lit Rnum]. rewrite <- INR_IZR_INZ.
  assert (Hn : 0 < INR (length (c :: rest))).
  { cbn [length]. rewrite S_INR. pose proof (pos_INR (length rest)). lra. }
  split; [apply (bands_sorted _ 0 (c :: rest) Hn)|].
  split.
  { cbn [bands fmap list_fmap fst head lit Rnum num_div]. f_equal.
    change (IZR (Z.of_nat 0)) with 0. unfold Rdiv. apply Rmult_0_l. }
  split.
  { rewrite bands_last. f_equal. change (0 + length rest)%nat with (length rest).
    change (length (c :: rest)) with (S (length rest)) in *. rewrite S_INR in *.
    field. lra. }
  intros i ci Hrest Hi.
  destruct (bands_lookup (N := Rnum) (INR (length (c :: rest))) 0 i (c :: rest) ci Hi)
    as [Ha Hb].
  eexists _, _. split; [exact Ha|]. split; [exact Hb|].
  cbn [Nat.add lit Rnum num_div num_add]. rewrite <- INR_IZR_INZ.
  assert (Hlt : (i < length (c :: rest))%nat) by (eapply lookup_lt_Some; exact Hi).
  assert (Hlen : (2 <= length (c :: rest))%nat).
  { destruct rest; [contradiction|]. cbn. lia. }
  apply lt_INR in Hlt. apply le_INR in Hlen. pose proof (pos_INR i) as Hi0.
  replace (INR 2) with 2 in Hlen by (cbn; lra).
  set (x := INR i) in *. set (n := INR (length (c :: rest))) in *.
  assert (Hn1 : 0 < n - 1) by lra.
  split.
  - apply (Rmult_le_reg_r (n * (n - 1))); [nra|].
    replace (x / n * (n * (n - 1))) with (x * (n - 1)) by (field; lra).
    replace (x / (n - 1) * (n * (n - 1))) with (x * n) by (field; lra). nra.
  - apply (Rmult_le_reg_r (n * (n - 1))); [nra|].
    replace (x / (n - 1) * (n * (n - 1))) with (x * n) by (field; lra).
    replace ((x + 1) / n * (n * (n - 1))) with ((x + 1) * (n - 1)) by (field; lra).
    assert (x + 1 <= n); [|nra].
    subst x n. rewrite <- S_INR. apply le_INR. apply INR_lt in Hlt. lia.
Qed.
End ColorscaleOrder.

(** ** The heatmap: colours, dimensions and the derived category list *)

Section HeatmapScaleFacts.
Import Heatmap Colorscale.
Context {num : Type} {N : Number num}.
Local Open Scope string_scope.

Lemma FACTOR_COLORS_nonempty (f c : string) : FACTOR_COLORS !! f = Some c -> c <> "".
Proof.
  unfold FACTOR_COLORS. intros H. apply elem_of_list_to_map_2 in H.
  repeat (apply elem_of_cons in H as [H|H]; [injection H as -> ->; discriminate|]).
  inversion H.
Qed.

(** On a name that [Object.prototype] does not have, the colour is the one
    of the table, or the fallback grey. *)
Lemma colorOf_own (f : string) :
  f ∉ objectPrototypeKeys -> colorOf f = Hex (default "#e2e8f0" (FACTOR_COLORS !! f)).
Proof.
  intros Hf. unfold colorOf. destruct (FACTOR_COLORS !! f) as [c|] eqn:Hc.
  - apply FACTOR_COLORS_nonempty in Hc. apply String.eqb_neq in Hc. rewrite Hc. reflexivity.
  - rewrite bool_decide_eq_false_2 by exact Hf. reflexivity.
Qed.

Lemma lookup_map {A B : Type} (f : A -> B) (l : list A) (i : nat) :
  map f l !! i = f <$> l !! i.
Proof.
  revert i. induction l as [|a rest IH]; intros [|i]; try reflexivity. apply (IH i).
Qed.

(** X14.  A fixed colour for each factor.  For a cell whose label is in
    the category list and is no member of [Object.prototype], the code of
    the cell is an index i of the label in the list, and the band i of the
    colour scale (its stops 2i and 2i + 1) carries the colour that
    FACTOR_COLORS gives to the label, or the grey #e2e8f0 when it gives
    none. *)
Theorem heatmap_band_colour (h : HeatmapResp) (row col : nat) :
  labelAt h row col ∈ factorList h -> labelAt h row col ∉ objectPrototypeKeys ->
  let c := default "#e2e8f0" (FACTOR_COLORS !! labelAt h row col) in
  let n := lit (Z.of_nat (length (factorList h))) in
  exists i : nat,
    codeAt h row col = Code (Z.of_nat i)
    /\ factorList h !! i = Some (labelAt h row col)
    /\ colorscale h !! (2 * i)%nat = Some ((lit (Z.of_nat i) / n)%js, Hex c)
    /\ colorscale h !! (2 * i + 1)%nat = Some (((lit (Z.of_nat i) + 1) / n)%js, Hex c).
Proof.
  intros Hin Hproto c n.
  assert (Hkey : labelAt h row col <> "__proto__").
  { intros Heq. apply Hproto. rewrite Heq. unfold objectPrototypeKeys. do 7 right. left. }
  destruct (forEach_assign_lookup (factorList h) ∅ 0 _ Hkey) as [Hfound _].
  destruct (Hfound Hin) as (i & Hi & Hlook).
  exists i. split; [|split; [exact Hi|]].
  - unfold codeAt, factorToCode, get. rewrite Hlook. cbn. rewrite Z.add_0_l. reflexivity.
  - assert (Hcol : colors h !! i = Some (Hex c)).
    { unfold colors. rewrite lookup_map, Hi. cbn. rewrite (colorOf_own _ Hproto). reflexivity. }
    unfold colorscale. rewrite colorscale_closed_form.
    destruct (bands_lookup (lit (Z.of_nat (length (colors h)))) 0 i (colors h) (Hex c) Hcol)
      as [Ha Hb].
    unfold colors in Ha, Hb |- *. rewrite length_map in Ha, Hb |- *.
    split; [exact Ha | exact Hb].
Qed.

(** A write into a matrix keeps the number of rows and their lengths. *)
Lemma set_cell_dims {A : Type} (m : list (list A)) (row col : nat) (v : A) (R M : nat) :
  length m = R /\ Forall (fun cells => length cells = M) m ->
  length (set_cell m row col v) = R
  /\ Forall (fun cells => length cells = M) (set_cell m row col v).
Proof.
  intros [Hlen Hrows]. unfold set_cell. split.
  - rewrite length_alter. exact Hlen.
  - apply Forall_alter; [exact Hrows|]. intros cells _ Hcells.
    rewrite length_insert. exact Hcells.
Qed.

Lemma fill_dims {A : Type} (g : nat -> nat -> A) (rows cols : list nat)
      (m : list (list A)) (R M : nat) :
  length m = R /\ Forall (fun cells => length cells = M) m ->
  let m' := fold_left
              (fun z col => fold_left (fun z row => set_cell z row col (g row col)) rows z)
              cols m in
  length m' = R /\ Forall (fun cells => length cells = M) m'.
Proof.
  revert m. induction cols as [|col cols IH]; intros m Hm; [exact Hm|].
  cbn [fold_left]. apply IH. clear IH.
  revert m Hm. induction rows as [|row rows IH]; intros m Hm; [exact Hm|].
  cbn [fold_left]. apply IH. apply set_cell_dims. exact Hm.
Qed.

Lemma replicate_dims {A : Type} (R M : nat) (v : A) :
  length (replicate R (replicate M v)) = R
  /\ Forall (fun cells => length cells = M) (replicate R (replicate M v)).
Proof.
  split; [apply length_replicate|].
  apply Forall_forall. intros cells Hin. apply elem_of_replicate in Hin as [-> _].
  apply length_replicate.
Qed.

(** X15.  The two matrices of the heatmap are rectangular: [z] and [text]
    have one row for each rank (the length of the first ranking, 0 when
    there is none) and one cell for each month in every row, whatever the
    lengths of the rankings; and the axis [yArr] has one tick for each
    row. *)
Theorem encode_dimensions (cellText : string -> Cell -> string) (h : HeatmapResp) :
  length (encode cellText h).1 = rankCount h
  /\ Forall (fun cells => length cells = length (months h)) (encode cellText h).1
  /\ length (encode cellText h).2 = rankCount h
  /\ Forall (fun cells => length cells = length (months h)) (encode cellText h).2
  /\ length (yArr h) = rankCount h.
Proof.
  rewrite encode_split. cbn [fst snd].
  destruct (fill_dims (fun row col => codeAt h row col) (seq 0 (rankCount h))
              (seq 0 (length (months h))) _ _ _
              (replicate_dims (rankCount h) (length (months h)) (Code 0))) as [Hz1 Hz2].
  destruct (fill_dims (fun row col => cellText (labelAt h row col) (valueAt h row col))
              (seq 0 (rankCount h)) (seq 0 (length (months h))) _ _ _
              (replicate_dims (rankCount h) (length (months h)) "")) as [Ht1 Ht2].
  repeat split; try assumption.
  unfold yArr. rewrite length_map, length_seq. reflexivity.
Qed.

Lemma uniq_from_spec (seen l : list string) :
  NoDup (uniq_from seen l) /\ forall x, x ∈ uniq_from seen l <-> x ∈ l /\ x ∉ seen.
Proof.
  revert seen. induction l as [|f rest IH]; intros seen.
  - split; [constructor|]. intros x. cbn. split; [intros H; inversion H | intros [H _]; inversion H].
  - cbn [uniq_from]. destruct (decide (f ∈ seen)) as [Hseen|Hnew].
    + rewrite bool_decide_eq_true_2 by exact Hseen.
      destruct (IH seen) as [Hnd Hmem]. split; [exact Hnd|].
      intros x. rewrite Hmem, elem_of_cons. split; [tauto|].
      intros [[->|Hx] Hnot]; [contradiction | tauto].
    + rewrite bool_decide_eq_false_2 by exact Hnew.
      destruct (IH (f :: seen)) as [Hnd Hmem]. split.
      * apply NoDup_cons. split; [|exact Hnd].
        intros Hf. apply Hmem in Hf as [_ Hf]. apply Hf. left.
      * intros x. rewrite !elem_of_cons, Hmem, elem_of_cons.
        destruct (decide (x = f)) as [->|Hne]; [tauto|]. tauto.
Qed.

(** X16.  When the artifact has no [factors], the category list is
    derived from the rankings: it has no duplicate, and every label of the
    rankings other than [__proto__] is coded by the one index at which the
    list holds it (never by the sentinel -1). *)
Theorem derived_factorList_codes (h : HeatmapResp) :
  factors h = None ->
  NoDup (factorList h)
  /\ forall col ranked row label,
       ranked_factors h !! col = Some ranked -> ranked !! row = Some label ->
       label <> "__proto__" ->
       exists i : nat,
         codeAt h row col = Code (Z.of_nat i)
         /\ factorList h !! i = Some label
         /\ forall j, factorList h !! j = Some label -> j = i.
Proof.
  intros Hfactors. unfold factorList. rewrite Hfactors.
  destruct (uniq_from_spec [] (concat (ranked_factors h))) as [Hnd Hmem].
  split; [exact Hnd|].
  intros col ranked row label Hcol Hrow Hkey.
  assert (Hlabel : labelAt h row col = label).
  { unfold labelAt. rewrite Hcol. cbn. rewrite Hrow. reflexivity. }
  assert (Hin : label ∈ uniq_from [] (concat (ranked_factors h))).
  { apply Hmem. split; [|intros H; inversion H].
    apply list_elem_of_In, in_concat. exists ranked.
    split; apply list_elem_of_In; eapply list_elem_of_lookup_2; eassumption. }
  destruct (forEach_assign_lookup (uniq_from [] (concat (ranked_factors h))) ∅ 0 _ Hkey)
    as [Hfound _].
  destruct (Hfound Hin) as (i & Hi & Hlook).
  exists i. split; [|split; [exact Hi|]].
  - unfold codeAt, factorToCode, get, factorList. rewrite Hfactors, Hlabel, Hlook.
    cbn. rewrite Z.add_0_l. reflexivity.
  - intros j Hj. exact (NoDup_lookup _ _ _ _ Hnd Hj Hi).
Qed.

Lemma derived_factorList_codes_witness :
  let h := mkHeatmapResp ["2024-01"; "2024-02"] [["B"; "A"]; ["A"; "C"]] None None in
  NoDup (factorList h) /\ factorList h = ["B"; "A"; "C"].
Proof.
  intros h. split; [|reflexivity].
  exact (proj1 (derived_factorList_codes h eq_refl)).
Defined.
End HeatmapScaleFacts.

Section HeatmapScaleWitness.
Import Heatmap Colorscale.
Local Open Scope string_scope.

Lemma heatmap_band_colour_witness :
  let h := mkHeatmapResp ["2024-01"] [["PE_low"; "Top300"]] None (Some ["Top300"; "PE_low"]) in
  exists i : nat,
    codeAt h 0 0 = Code (Z.of_nat i)
    /\ factorList h !! i = Some "PE_low"
    /\ colorscale (N := Binary64.binary64 (fun base _ => base)) h !! (2 * i)%nat
       = Some ((Binary64.of_Z (Z.of_nat i) / 2)%float, Hex "#7f7f7f")
    /\ colorscale (N := Binary64.binary64 (fun base _ => base)) h !! (2 * i + 1)%nat
       = Some (((Binary64.of_Z (Z.of_nat i) + 1) / 2)%float, Hex "#7f7f7f").
Proof.
  intros h.
  apply (heatmap_band_colour (N := Binary64.binary64 (fun base _ => base)) h 0 0).
  - right. left.
  - intros Hin. unfold Heatmap.objectPrototypeKeys in Hin.
    repeat (apply elem_of_cons in Hin as [Heq|Hin]; [discriminate Heq|]). inversion Hin.
Defined.
End HeatmapScaleWitness.

(** ** The pool of events, the vertical lines and the markers *)

Section PoolFacts.
Import Series GlobalWave Events.
Context {num : Type} {N : Number num}.
Local Open Scope string_scope.

Lemma pool_fold (evs : list GwEvent) (acc : list PoolEvent) :
  fold_left pool_step evs acc = (acc ++ map poolOf (List.filter usable evs))%list.
Proof.
  revert acc. induction evs as [|e rest IH]; intros acc.
  - cbn. rewrite app_nil_r. reflexivity.
  - cbn [fold_left List.filter]. rewrite IH. unfold pool_step, usable, poolOf.
    destruct (String.eqb (date e) ""); cbn [negb andb]; [reflexivity|].
    destruct (String.eqb (type e) "trough") eqn:Ht;
      destruct (String.eqb (type e) "peak") eqn:Hp; cbn; rewrite ?Hp, <- ?app_assoc;
      try reflexivity.
    apply String.eqb_eq in Ht. rewrite Ht in Hp. discriminate Hp.
Qed.

(** X17.  The vertical lines.  A chart is built exactly when the
    benchmark is loaded and has a date and a return.  It then has one
    vertical line for each event of the first key of [gwData] that has a
    date and whose type is "trough" or "peak", in the order of the events
    and at the event's own date, whether or not a marker could be placed
    (no line when there is no key, when the key is the empty string or
    when it has no events); the entries of the other keys are not read. *)
Theorem gwSignalTraces_shapes (benchSeries : option (ReturnsResp num))
    (gwData : list (string * GlobalWaveResp)) :
  (gwSignalTraces benchSeries gwData = None
   <-> benchSeries = None
       \/ exists bench, benchSeries = Some bench /\ (dates bench = [] \/ ret bench = []))
  /\ forall tr, gwSignalTraces benchSeries gwData = Some tr ->
       shapes tr
       = match gwData with
         | [] => []
         | (anyFactor, resp) :: _ =>
             if String.eqb anyFactor "" then []
             else map (fun e => (kind (poolOf e), date e))
                    (List.filter usable (default [] (events resp)))
         end
       /\ gwSignalTraces benchSeries (take 1 gwData) = Some tr.
Proof.
  split.
  - unfold gwSignalTraces. destruct benchSeries as [bench|].
    + destruct (dates bench) as [|d0 ds] eqn:Hd; destruct (ret bench) as [|r0 rs] eqn:Hr; cbn.
      * split; [intros _; right; exists bench; split; [reflexivity | left; exact Hd] | reflexivity].
      * split; [intros _; right; exists bench; split; [reflexivity | left; exact Hd] | reflexivity].
      * split; [intros _; right; exists bench; split; [reflexivity | right; exact Hr] | reflexivity].
      * split; [discriminate|].
        intros [H|(b & Hb & [H|H])]; [discriminate H | |]; injection Hb as <-; congruence.
    + split; [intros _; left; reflexivity | reflexivity].
  - intros tr Htr. unfold gwSignalTraces in *. destruct benchSeries as [bench|]; [|discriminate Htr].
    destruct (_ || _); [discriminate Htr|]. injection Htr as <-. cbn [shapes].
    destruct gwData as [|[anyFactor resp] others]; [split; reflexivity|].
    split; [|reflexivity]. unfold eventPool.
    destruct (String.eqb anyFactor ""); cbn [negb]; [reflexivity|].
    destruct (events resp) as [evs|]; cbn [default]; [|reflexivity].
    rewrite pool_fold. cbn [app]. rewrite map_map. reflexivity.
Qed.

Lemma findIndex_from_found {A : Type} (p : A -> bool) (l : list A) (i : Z) :
  findIndex_from p l i = (-1)%Z
  \/ exists (k : nat) (a : A),
       findIndex_from p l i = (i + Z.of_nat k)%Z /\ l !! k = Some a /\ p a = true.
Proof.
  revert i. induction l as [|a rest IH]; intros i; [left; reflexivity|].
  cbn [findIndex_from]. destruct (p a) eqn:Hp.
  - right. exists 0%nat, a. split; [lia | split; [reflexivity | exact Hp]].
  - destruct (IH (i + 1)%Z) as [Hnone|(k & a' & Hk & Ha & Hpa)]; [left; exact Hnone|].
    right. exists (S k), a'. split; [lia | split; assumption].
Qed.

Lemma marker_step_ok (x : list string) (y : list num) (bound : nat) (m : Markers)
      (e : PoolEvent) :
  markers_ok x y bound m -> markers_ok x y (S bound) (marker_step x y m e).
Proof.
  intros (Hp & Ht & Hb & Hpx & Htx & Hy). unfold marker_step.
  destruct (findIndex_from_found (fun d => string_ge d (pdate e)) x 0)
    as [Hnone|(k & d & Hk & Hd & _)]; unfold findIndex.
  - rewrite Hnone. cbn. repeat split; try assumption; try lia; apply Hy; assumption.
  - rewrite Hk, Z.add_0_l.
    replace (Z.of_nat k =? -1)%Z with false by (symmetry; apply Z.eqb_neq; lia).
    rewrite Nat2Z.id, Hd.
    assert (Hin : exists d', Some d = Some d' /\ d' ∈ x).
    { exists d. split; [reflexivity|]. eapply list_elem_of_lookup_2. exact Hd. }
    assert (Hyk : length x <= length y -> is_Some (y !! k)).
    { intros Hlen. apply lookup_lt_is_Some. apply lookup_lt_Some in Hd. lia. }
    destruct (kind e); cbn [peaksX peaksY troughX troughY]; unfold markers_ok;
      cbn [peaksX peaksY troughX troughY]; rewrite ?length_app; cbn [length];
      repeat split; try assumption; try lia;
      try (apply Forall_app; split; [assumption | constructor; [assumption | constructor]]).
    all: match goal with
         | Hlen : length _ <= length _ |- _ =>
             destruct (Hy Hlen) as [Hy1 Hy2]; pose proof (Hyk Hlen) as Hyk';
             first [ assumption
                   | apply Forall_app; split;
                     [assumption | constructor; [assumption | constructor]] ]
         end.
Qed.

Lemma marker_fold_ok (x : list string) (y : list num) (pool : list PoolEvent)
      (bound : nat) (m : Markers) :
  markers_ok x y bound m ->
  markers_ok x y (bound + length pool) (fold_left (marker_step x y) pool m).
Proof.
  revert bound m. induction pool as [|e rest IH]; intros bound m Hm.
  - cbn. rewrite Nat.add_0_r. exact Hm.
  - cbn [fold_left length]. replace (bound + S (length rest)) with (S bound + length rest) by lia.
    apply IH, marker_step_ok, Hm.
Qed.

(** X18.  The markers of a chart, for any strings as dates.  The line of
    the chart is the benchmark's dates against its cumulative curve; the
    x and y arrays of the peak markers have the same length, and so have
    those of the trough markers; there are at most as many markers as
    vertical lines; every marker date is a date of the benchmark; and when
    the benchmark has a return for each date, every marker has a value. *)
Theorem gwSignalTraces_markers (bench : ReturnsResp num)
    (gwData : list (string * GlobalWaveResp)) (tr : SignalTraces) :
  gwSignalTraces (Some bench) gwData = Some tr ->
  lineX tr = dates bench /\ lineY tr = toCum (ret bench)
  /\ length (peaksX (markers tr)) = length (peaksY (markers tr))
  /\ length (troughX (markers tr)) = length (troughY (markers tr))
  /\ length (peaksX (markers tr)) + length (troughX (markers tr)) <= length (shapes tr)
  /\ Forall (fun o => exists d, o = Some d /\ d ∈ dates bench) (peaksX (markers tr))
  /\ Forall (fun o => exists d, o = Some d /\ d ∈ dates bench) (troughX (markers tr))
  /\ (length (dates bench) <= length (ret bench) ->
      Forall is_Some (peaksY (markers tr)) /\ Forall is_Some (troughY (markers tr))).
Proof.
  intros Htr. unfold gwSignalTraces in Htr. destruct (_ || _); [discriminate Htr|].
  injection Htr as <-. cbn [lineX lineY markers shapes].
  split; [reflexivity|]. split; [reflexivity|].
  pose proof (marker_fold_ok (dates bench) (toCum (ret bench)) (eventPool gwData) 0
                (mkMarkers [] [] [] [])) as Hok.
  rewrite length_map. unfold markers_ok in Hok. cbn [Nat.add] in Hok.
  rewrite length_toCum in Hok. apply Hok.
  cbn. repeat split; try constructor; lia.
Qed.
End PoolFacts.

Section PoolWitness.
Import Series GlobalWave.
Local Open Scope string_scope.

Lemma gwSignalTraces_markers_witness :
  let bench := mkReturnsResp None (Some "Top300")
                 ["2020-03-13"; "2020-03-16"; "2020-03-20"] [0.01; -0.02; 0.03]%float in
  let gwData := [("Top300", mkGlobalWaveResp (Some [mkGwEvent "peak" "2020-03-15";
                                                    mkGwEvent "trough" "2021-01-01"]))] in
  exists tr,
    gwSignalTraces (N := Binary64.binary64 (fun base _ => base)) (Some bench) gwData = Some tr
    /\ length (peaksX (markers tr)) + length (troughX (markers tr)) <= length (shapes tr).
Proof.
  intros bench gwData. eexists. split; [reflexivity|].
  eapply (gwSignalTraces_markers (N := Binary64.binary64 (fun base _ => base)) bench gwData).
  reflexivity.
Defined.
End PoolWitness.

(** ** The selections of [Home] *)

Section SelectionFacts.
Import Selection.
Local Open Scope string_scope.

Lemma includes_elem_of (list : list string) (x : string) :
  includes list x = true <-> x ∈ list.
Proof. unfold includes. apply bool_decide_eq_true. Qed.

Lemma filter_includes (list candidates : list string) :
  List.filter (includes list) candidates ⊆ list
  /\ length (List.filter (includes list) candidates) <= length candidates.
Proof.
  split.
  - intros x Hx. apply list_elem_of_In, filter_In in Hx as [_ Hx].
    apply includes_elem_of. exact Hx.
  - induction candidates as [|c rest IH]; [reflexivity|]. cbn.
    destruct (includes list c); cbn; lia.
Qed.

(** X19.  After the list of factors has loaded and is not empty, the
    selections refer to factors of the list: the Global Wave selection is
    not empty, has at most three factors and each of them is in the list;
    the benchmark is in the list; and the first selected factor is in the
    list.  An empty list, or a failure to load it, clears the list of
    factors and leaves the selections as they were. *)
Theorem loadFactorList_valid (first : string) (rest : list string) (st : SelectionState) :
  let list := first :: rest in
  let st' := loadFactorList (Some list) st in
  factors st' = list
  /\ gwSelected st' <> []
  /\ gwSelected st' ⊆ list
  /\ length (gwSelected st') <= 3
  /\ gwBenchmark st' ∈ list
  /\ (exists s0 tl, selected st' = s0 :: tl /\ s0 ∈ list)
  /\ loadFactorList (Some []) st
     = mkSelectionState [] (selected st) (gwSelected st) (gwBenchmark st)
  /\ loadFactorList None st
     = mkSelectionState [] (selected st) (gwSelected st) (gwBenchmark st).
Proof.
  intros list st'. subst st' list.
  cbn [loadFactorList factors gwSelected gwBenchmark selected].
  set (defaults := List.filter (includes (first :: rest)) ["Top300"; "PE_low"; "PB_low"]).
  destruct (filter_includes (first :: rest) ["Top300"; "PE_low"; "PB_low"]) as [Hsub Hlen].
  fold defaults in Hsub, Hlen. cbn [length] in Hlen.
  split; [reflexivity|]. split; [|split; [|split; [|split; [|split; [|split; reflexivity]]]]].
  - destruct defaults as [|d0 ds]; cbn; discriminate.
  - destruct defaults as [|d0 ds]; cbn [length Nat.eqb negb]; [|exact Hsub].
    apply subseteq_take.
  - destruct defaults as [|d0 ds]; cbn [length Nat.eqb negb]; [|exact Hlen].
    rewrite length_take. lia.
  - destruct (includes (first :: rest) "Top300") eqn:Htop;
      [apply includes_elem_of; exact Htop | left].
  - destruct (selected st) as [|s0 tl]; [exists first, []; split; [reflexivity | left]|].
    destruct (includes (first :: rest) s0) eqn:Hs0; cbn [negb].
    + exists s0, tl. split; [reflexivity | apply includes_elem_of; exact Hs0].
    + exists first, []. split; [reflexivity | left].
Qed.

Lemma filter_other (f : string) (sel : list string) :
  f ∉ sel -> List.filter (fun x => negb (String.eqb x f)) sel = sel.
Proof.
  induction sel as [|s rest IH]; intros Hf; [reflexivity|]. cbn.
  apply not_elem_of_cons in Hf as [Hne Hrest].
  replace (String.eqb s f) with false by (symmetry; apply String.eqb_neq; congruence).
  cbn. rewrite (IH Hrest). reflexivity.
Qed.

(** X20.  A check box does what it shows.  After the handler has run with
    the state [checked] of the box of factor [f], the selection includes
    [f] exactly when the box is checked; whether it includes any other
    factor does not change; and checking a factor that was not selected and
    unchecking it again gives back the selection. *)
Theorem toggle_membership (checked : bool) (f : string) (sel : list string) :
  includes (toggle checked f sel) f = checked
  /\ (forall g, g <> f -> includes (toggle checked f sel) g = includes sel g)
  /\ (f ∉ sel -> toggle false f (toggle true f sel) = sel).
Proof.
  split; [|split].
  - unfold includes, toggle. destruct checked.
    + apply bool_decide_eq_true. apply elem_of_app. right. left.
    + apply bool_decide_eq_false. intros Hin.
      apply list_elem_of_In, filter_In in Hin as [_ Hne].
      rewrite String.eqb_refl in Hne. discriminate Hne.
  - intros g Hg. unfold includes, toggle. apply bool_decide_ext. destruct checked.
    + rewrite elem_of_app, list_elem_of_singleton. tauto.
    + rewrite !list_elem_of_In, filter_In. split; [tauto|].
      intros Hin. split; [exact Hin|].
      apply negb_true_iff, String.eqb_neq. exact Hg.
  - intros Hf. unfold toggle. rewrite List.filter_app, (filter_other f sel Hf). cbn.
    rewrite String.eqb_refl. cbn. apply app_nil_r.
Qed.
End SelectionFacts.

(** ** Loading the series and the metrics *)

Section DashboardFacts.
Import Dashboard.
Context {num : Type} {N : Number num} (undefined : num).
Variable Date_getTime : string -> Series.TimeValue.
Local Open Scope string_scope.

Abbreviation clipped start end_ f d :=
  (Series.clipByRange Date_getTime undefined (normalized f d) start end_).
Abbreviation load := (loadSeries undefined Date_getTime).

(** A value that no later pair overwrites stays in the object. *)
Lemma collect_keep (pairs : list (string * Series.ReturnsResp num))
      (acc : gmap string (Series.ReturnsResp num)) (f : string) :
  f ∉ pairs.*1 -> fold_left (fun obj p => <[p.1 := p.2]> obj) pairs acc !! f = acc !! f.
Proof.
  revert acc. induction pairs as [|p rest IH]; intros acc Hf; [reflexivity|].
  cbn [fold_left]. cbn [fmap list_fmap] in Hf. apply not_elem_of_cons in Hf as [Hne Hrest].
  rewrite (IH _ Hrest). apply lookup_insert_ne. congruence.
Qed.

Lemma collect_in (pairs : list (string * Series.ReturnsResp num))
      (acc : gmap string (Series.ReturnsResp num)) (f : string) (d : Series.ReturnsResp num) :
  NoDup pairs.*1 -> (f, d) ∈ pairs ->
  fold_left (fun obj p => <[p.1 := p.2]> obj) pairs acc !! f = Some d.
Proof.
  revert acc. induction pairs as [|p rest IH]; intros acc Hnd Hin; [inversion Hin|].
  cbn [fmap list_fmap] in Hnd. apply NoDup_cons in Hnd as [Hfresh Hnd].
  cbn [fold_left]. apply elem_of_cons in Hin as [<-|Hin].
  - cbn [fst snd] in *. rewrite (collect_keep rest _ f Hfresh). apply lookup_insert_eq.
  - apply (IH _ Hnd Hin).
Qed.

(** Every series of the object was stored by one of the pairs. *)
Lemma collect_from (pairs : list (string * Series.ReturnsResp num))
      (acc : gmap string (Series.ReturnsResp num)) (f : string) (d : Series.ReturnsResp num) :
  fold_left (fun obj p => <[p.1 := p.2]> obj) pairs acc !! f = Some d ->
  (f, d) ∈ pairs \/ acc !! f = Some d.
Proof.
  revert acc. induction pairs as [|[g d'] rest IH]; intros acc Hf; [right; exact Hf|].
  cbn [fold_left fst snd] in Hf. destruct (IH _ Hf) as [Hin|Hacc].
  - left. right. exact Hin.
  - destruct (decide (g = f)) as [->|Hne].
    + rewrite lookup_insert_eq in Hacc. injection Hacc as ->. left. left.
    + rewrite lookup_insert_ne in Hacc by exact Hne. right. exact Hacc.
Qed.

Lemma loadOne_pairs (start end_ : string) (requests : list (string * option (RawReturns num)))
      (pairs : list (string * Series.ReturnsResp num)) :
  mapM (loadOne undefined Date_getTime start end_) requests = Some pairs ->
  pairs.*1 = requests.*1
  /\ Forall (fun p => exists d, (p.1, Some d) ∈ requests /\ p.2 = clipped start end_ p.1 d) pairs.
Proof.
  intros Hm. apply mapM_Some_1 in Hm.
  induction Hm as [|[f o] p requests pairs Hp _ [IH1 IH2]]; [split; [reflexivity | constructor]|].
  unfold loadOne in Hp. cbn [fst snd] in Hp. destruct o as [d|]; [|discriminate Hp].
  injection Hp as <-. cbn [fmap list_fmap fst]. split; [f_equal; exact IH1|].
  constructor.
  - exists d. split; [left | reflexivity].
  - eapply Forall_impl; [exact IH2|]. intros q (d' & Hin & Hq).
    exists d'. split; [right; exact Hin | exact Hq].
Qed.

(** X21.  Loading is all or nothing.  When the request of one selected
    factor fails, both the series and the table of metrics are cleared,
    as they are for an empty selection.  When every request succeeds (the
    selection having no duplicate), the table has one row for each
    selected factor, in the order of the selection; the row of a factor
    carries the name under which it was selected and the metrics of its
    series after normalization and date clipping, at the rate [rf] and 252
    periods a year; and that clipped series is the one stored for the
    charts. *)
Theorem loadSeries_rows (requests : list (string * option (RawReturns num)))
    (start end_ : string) (rf : num) :
  (forall f, (f, None) ∈ requests -> load requests start end_ rf = (∅, []))
  /\ load [] start end_ rf = (∅, [])
  /\ (Forall (fun r => is_Some r.2) requests -> NoDup requests.*1 ->
      length (load requests start end_ rf).2 = length requests
      /\ forall i f d, requests !! i = Some (f, Some d) ->
           (load requests start end_ rf).1 !! f = Some (clipped start end_ f d)
           /\ (load requests start end_ rf).2 !! i
              = Some (calcMetricsFromDailyRet f (Series.ret (clipped start end_ f d))
                        rf (lit 252))).
Proof.
  split; [|split; [reflexivity|]].
  - intros f Hf. unfold loadSeries. destruct (Nat.eqb _ 0); [reflexivity|].
    rewrite (mapM_None_2 (loadOne undefined Date_getTime start end_) requests); [reflexivity|].
    apply Exists_exists. exists (f, None). split; [exact Hf | reflexivity].
  - intros Hall Hnd. unfold loadSeries.
    destruct requests as [|r0 requests']; [split; [reflexivity | intros i f d Hi; discriminate Hi]|].
    set (requests := r0 :: requests') in *.
    replace (Nat.eqb (length requests.*1) 0) with false by reflexivity.
    destruct (mapM (loadOne undefined Date_getTime start end_) requests) as [pairs|] eqn:Hm.
    2:{ apply mapM_None_1, Exists_exists in Hm as ([f o] & Hin & Hnone).
        rewrite Forall_forall in Hall. destruct (Hall _ Hin) as [d Hd].
        cbn in Hd. subst o. discriminate Hnone. }
    cbn [fst snd]. split; [rewrite length_map, length_fmap; reflexivity|].
    intros i f d Hi.
    pose proof (mapM_Some_1 _ _ _ Hm) as Hpairs.
    destruct (Forall2_lookup_l _ _ _ _ _ Hpairs Hi) as (p & Hp & Hload).
    cbn in Hload. injection Hload as <-.
    destruct (loadOne_pairs _ _ _ _ Hm) as [Hkeys _].
    assert (Hobj : collect pairs !! f = Some (clipped start end_ f d)).
    { apply collect_in; [rewrite Hkeys; exact Hnd|].
      eapply list_elem_of_lookup_2. exact Hp. }
    split; [exact Hobj|].
    rewrite lookup_map, list_lookup_fmap, Hi. cbn. rewrite Hobj. reflexivity.
Qed.

Lemma clip_rectangular (d : Series.ReturnsResp num) (start end_ : string) (s e : Z) :
  Series.parseDate Date_getTime start = Some s -> Series.parseDate Date_getTime end_ = Some e ->
  length (Series.ret (Series.clipByRange Date_getTime undefined d start end_))
  = length (Series.dates (Series.clipByRange Date_getTime undefined d start end_)).
Proof.
  intros Hs He. rewrite (clip_between Date_getTime undefined d start end_ s e Hs He).
  cbn. rewrite !length_fmap. reflexivity.
Qed.

(** X22.  The lines of the performance chart.  When both bounds of the
    date range parse, every trace that is drawn from the loaded series has
    at least one point, has as many y values as x values, and bears the
    name of a selected factor: a factor without a series, or whose series
    has no date left in the range, gives no trace. *)
Theorem chartData_rectangular (requests : list (string * option (RawReturns num)))
    (start end_ : string) (rf : num) (s e : Z) (selected : list string) (t : Trace num) :
  Series.parseDate Date_getTime start = Some s ->
  Series.parseDate Date_getTime end_ = Some e ->
  t ∈ chartData (load requests start end_ rf).1 selected ->
  x t <> [] /\ length (y t) = length (x t) /\ name t ∈ selected.
Proof.
  intros Hs He Ht. unfold chartData in Ht. apply list_elem_of_omap in Ht as (f & Hf & Htrace).
  destruct ((load requests start end_ rf).1 !! f) as [d|] eqn:Hd; [|discriminate Htrace].
  destruct (Nat.eqb (length (Series.dates d)) 0) eqn:Hlen; [discriminate Htrace|].
  injection Htrace as <-. cbn [x y name].
  split; [intros Hnil; rewrite Hnil in Hlen; discriminate Hlen|].
  split; [|exact Hf].
  rewrite length_toCum.
  unfold loadSeries in Hd.
  destruct (Nat.eqb _ 0); [cbn [fst] in Hd; rewrite lookup_empty in Hd; discriminate Hd|].
  destruct (mapM _ requests) as [pairs|] eqn:Hm;
    [|cbn [fst] in Hd; rewrite lookup_empty in Hd; discriminate Hd].
  cbn [fst] in Hd. apply collect_from in Hd as [Hin|Hempty];
    [|rewrite lookup_empty in Hempty; discriminate Hempty].
  destruct (loadOne_pairs _ _ _ _ Hm) as [_ Hclipped].
  rewrite Forall_forall in Hclipped. destruct (Hclipped _ Hin) as (d0 & _ & Hd0).
  cbn [fst snd] in Hd0. rewrite Hd0. apply (clip_rectangular _ start end_ s e Hs He).
Qed.
End DashboardFacts.

Section DashboardWitness.
Import Dashboard.
Local Open Scope string_scope.

Abbreviation dayParser :=
  (fun s : string =>
     match GlobalWave.isoDay s with Some day => Series.ms day | None => Series.NaN_time end).
Abbreviation engine := (Binary64.binary64 (fun base _ => base)).
Abbreviation top300 :=
  (mkRawReturns None None (Some ["2020-03-13"; "2020-03-16"; "2021-01-04"])
     (Some [0.01; -0.02; 0.03]%float)).

Lemma loadSeries_rows_witness :
  loadSeries (N := engine) nan dayParser [("Top300", Some top300); ("PE_low", None)]
    "2020-01-01" "2020-12-31" 0%float
  = (∅, []).
Proof.
  apply (proj1 (loadSeries_rows (N := engine) nan dayParser
                  [("Top300", Some top300); ("PE_low", None)]
                  "2020-01-01" "2020-12-31" 0%float) "PE_low").
  right. left.
Defined.

Lemma chartData_rectangular_witness :
  let t := mkTrace ["2020-03-13"; "2020-03-16"]
             (toCum (N := engine) [0.01; -0.02]%float) "Top300" in
  x t <> [] /\ length (y t) = length (x t) /\ name t ∈ ["PE_low"; "Top300"].
Proof.
  intros t.
  apply (chartData_rectangular (N := engine) nan dayParser [("Top300", Some top300)]
           "2020-01-01" "2020-12-31" 0%float 20200101 20201231 ["PE_low"; "Top300"] t).
  - reflexivity.
  - reflexivity.
  - assert (Hchart : chartData (N := engine)
                       (loadSeries (N := engine) nan dayParser [("Top300", Some top300)]
                          "2020-01-01" "2020-12-31" 0%float).1 ["PE_low"; "Top300"]
                     = [t]) by (vm_compute; reflexivity).
    rewrite Hchart. left.
Defined.
End DashboardWitness.

(** ** Formatting *)

Section FormattingFacts.
Import Heatmap Formatting.
Local Open Scope string_scope.
Variable Number_toString : float -> string.

Lemma percent_not_dash (s : string) : s ++ "%" <> "-".
Proof. destruct s as [|a [|b s']]; cbn; discriminate. Qed.

(** The two helpers agree on what a missing value is.  [fmtPct] shows
    "-" exactly when [safeNum] gives null, which is exactly for null,
    undefined and NaN; for every other number [safeNum] gives the number
    back, and [fmtPct] shows it times 100 with two decimals and a percent
    sign. *)
Lemma fmtPct_safeNum (x : Cell) :
  (fmtPct Number_toString x = "-" <-> safeNum x = None)
  /\ (safeNum x = None
      <-> x = Null \/ x = Undefined \/ exists v, x = Num v /\ is_nan v = true)
  /\ (forall v, safeNum x = Some v ->
        x = Num v /\ is_nan v = false
        /\ fmtPct Number_toString x = toFixed Number_toString (v * 100)%float 2 ++ "%").
Proof.
  destruct x as [| |v]; cbn [fmtPct safeNum].
  - split; [tauto|]. split; [|discriminate]. split; [intros _; left; reflexivity | reflexivity].
  - split; [tauto|]. split; [|discriminate].
    split; [intros _; right; left; reflexivity | reflexivity].
  - destruct (is_nan v) eqn:Hnan.
    + split; [tauto|]. split; [|discriminate].
      split; [intros _; right; right; exists v; split; [reflexivity | exact Hnan] | reflexivity].
    + split; [split; [intros H; exfalso; exact (percent_not_dash _ H) | discriminate]|].
      split.
      * split; [discriminate|]. intros [H|[H|(w & H & Hw)]]; try discriminate H.
        injection H as <-. rewrite Hnan in Hw. discriminate Hw.
      * intros w Hw. injection Hw as <-. repeat split. exact Hnan.
Qed.

Lemma point_not_blank (a b : string) : a ++ "." ++ b <> "" /\ a ++ "." ++ b <> "-".
Proof.
  destruct a as [|c a']; cbn; [split; discriminate|].
  split; [discriminate|]. intros H. injection H as _ H. destruct a'; discriminate H.
Qed.

(** With two decimals, [toFixed] gives a numeral, or what
    [Number::toString] gives. *)
Lemma toFixed_not_blank (v : float) :
  (forall w, Number_toString w <> "" /\ Number_toString w <> "-") ->
  toFixed Number_toString v 2 <> "" /\ toFixed Number_toString v 2 <> "-".
Proof.
  intros Hhost. unfold toFixed. destruct (Prim2SF v) as [s|s| |s m e].
  - cbn. split; discriminate.
  - destruct s; split; discriminate.
  - split; discriminate.
  - destruct (if (0 <=? e)%Z then _ else _); [apply Hhost|].
    set (n := if (0 <=? e)%Z then _ else _). unfold fixedPoint. cbn [Nat.eqb].
    set (digits := zeros _ ++ digitsOf n).
    destruct (point_not_blank (substring 0 (String.length digits - 2) digits)
                (substring (String.length digits - 2) 2 digits)) as [H1 H2].
    destruct s; cbn [append]; [|split; assumption].
    split; [discriminate|]. intros H. injection H as H. exact (H1 H).
Qed.

(** X24.  The Sharpe cell of the metrics table.  Provided that
    [Number::toString] yields a numeral (neither the empty string nor a
    lone dash), the cell shows "-" exactly when the row has no Sharpe
    ratio; a Sharpe ratio that is NaN is shown as "NaN". *)
Theorem sharpeCell_dash_iff_null (sharpe : option float) :
  (forall w, Number_toString w <> "" /\ Number_toString w <> "-") ->
  (sharpeCell Number_toString sharpe = "-" <-> sharpe = None)
  /\ sharpeCell Number_toString (Some nan) = "NaN".
Proof.
  intros Hhost. split; [|reflexivity].
  destruct sharpe as [v|]; cbn [sharpeCell]; [|tauto].
  destruct (toFixed_not_blank v Hhost) as [H1 H2].
  apply String.eqb_neq in H1. rewrite H1.
  split; [intros H; contradiction | discriminate].
Qed.
End FormattingFacts.

Section FormattingWitness.
Import Formatting.
Local Open Scope string_scope.

Lemma sharpeCell_dash_iff_null_witness :
  sharpeCell (fun _ => "1e+21") (Some 1.5%float) = "-" <-> Some 1.5%float = None.
Proof.
  apply (sharpeCell_dash_iff_null (fun _ => "1e+21") (Some 1.5%float)).
  intros w. split; discriminate.
Defined.
End FormattingWitness.

(** ** The metrics of the factor page *)

Section DetailFacts.
Import Binary64.
Local Open Scope float_scope.

(** Subtracting zero changes no number (the sign of a zero included). *)
Lemma sub_zero_r (v : float) : v - 0 = v.
Proof.
  apply Prim2SF_inj. rewrite sub_spec.
  replace (Prim2SF 0) with (S754_zero false) by reflexivity.
  destruct (Prim2SF v) as [s|s| |s m e]; try reflexivity. destruct s; reflexivity.
Qed.

(** X25.  The metrics of the factor page are those of the home page at
    a risk-free rate of zero.  On every engine, for every return series
    and every periods-per-year constant by which zero divides to zero
    (as it does by 252), [calcMetrics] and
    [calcMetricsFromDailyRet] give the same annualized return, the same
    annualized volatility and the same maximum drawdown, and the Sharpe
    ratio of [calcMetrics] is the one of [calcMetricsFromDailyRet], with
    0 where that one is null. *)
Theorem calcMetrics_agrees (pow_approx : float -> float -> float)
    (name : string) (ret : list float) (freq : float) :
  0 / freq = 0 ->
  let home := calcMetricsFromDailyRet (N := binary64 pow_approx) name ret 0 freq in
  let detail := Detail.calcMetrics (N := binary64 pow_approx) ret freq in
  Detail.ann_return detail = ann_return home
  /\ Detail.ann_vol detail = ann_vol home
  /\ Detail.maxdd detail = maxdd home
  /\ Detail.sharpe detail = default 0 (sharpe home).
Proof.
  intros Hfreq home detail. subst home detail.
  destruct ret as [|r rest]; [repeat split|].
  unfold calcMetricsFromDailyRet, Detail.calcMetrics. cbn [length Nat.eqb]. cbv zeta.
  assert (Hex : map (fun v => num_sub (Number := binary64 pow_approx) v
                                (num_div (Number := binary64 pow_approx) 0 freq))
                  (r :: rest)
                = r :: rest).
  { cbn [num_sub num_div binary64]. rewrite Hfreq.
    rewrite (map_ext _ (fun v => v)) by (intros v; apply sub_zero_r). apply map_id. }
  rewrite Hex.
  cbn [Detail.ann_return Detail.ann_vol Detail.maxdd Detail.sharpe ann_return ann_vol maxdd sharpe].
  split; [reflexivity|]. split; [reflexivity|]. split; [reflexivity|].
  destruct (num_eq _ _); reflexivity.
Qed.

Lemma calcMetrics_agrees_witness :
  let home := calcMetricsFromDailyRet (N := binary64 (fun base _ => base)) "Top300"
                [0.01; -0.02; 0.03] 0 252 in
  let detail := Detail.calcMetrics (N := binary64 (fun base _ => base))
                  [0.01; -0.02; 0.03] 252 in
  Detail.ann_return detail = ann_return home
  /\ Detail.ann_vol detail = ann_vol home
  /\ Detail.maxdd detail = maxdd home
  /\ Detail.sharpe detail = default 0 (sharpe home).
Proof.
  apply (calcMetrics_agrees (fun base _ => base) "Top300" [0.01; -0.02; 0.03] 252).
  reflexivity.
Defined.
End DetailFacts.

(** ** The name of the factor page and the manifest *)

Section FactorPageFacts.
Import FactorPage.
Local Open Scope string_scope.
Variable String_trim : string -> string.
Variable decodeURIComponent : string -> option string.

Lemma split_slash_nonempty (s : string) : split_slash s <> [].
Proof.
  induction s as [|c rest IH]; cbn; [discriminate|].
  destruct (Ascii.eqb c "/"); [discriminate|]. destruct (split_slash rest); discriminate.
Qed.

Lemma join_cons_char (c : ascii) (seg : string) (segs : list string) :
  join_slash (String c seg :: segs) = String c (join_slash (seg :: segs)).
Proof. destruct segs; reflexivity. Qed.

(** Joining the segments of a string with "/" gives back the string. *)
Lemma join_split (s : string) : join_slash (split_slash s) = s.
Proof.
  induction s as [|c rest IH]; [reflexivity|]. cbn [split_slash].
  pose proof (split_slash_nonempty rest) as Hne.
  destruct (split_slash rest) as [|seg segs]; [contradiction|].
  destruct (Ascii.eqb_spec c "/") as [->|Hc].
  - change (join_slash ("" :: seg :: segs)) with ("" ++ "/" ++ join_slash (seg :: segs)).
    rewrite IH. reflexivity.
  - rewrite join_cons_char, IH. reflexivity.
Qed.

Lemma split_no_slash (s : string) : Forall (fun seg => hasSlash seg = false) (split_slash s).
Proof.
  induction s as [|c rest IH]; [repeat constructor|]. cbn [split_slash].
  destruct (Ascii.eqb c "/") eqn:Hc; [constructor; [reflexivity | exact IH]|].
  destruct (split_slash rest) as [|seg segs]; [repeat constructor; cbn; rewrite Hc; reflexivity|].
  inversion IH as [|? ? Hseg Hsegs]; subst. constructor; [|exact Hsegs].
  cbn. rewrite Hc, Hseg. reflexivity.
Qed.

Lemma filter_blank (k : nat) :
  List.filter (fun seg => negb (String.eqb seg "")) (replicate k "") = [].
Proof. induction k as [|k IH]; [reflexivity | exact IH]. Qed.

(** The last of the segments that are not empty: only empty segments
    follow it. *)
Lemma last_filled (segments : list string) (seg : string) :
  last (List.filter (fun seg => negb (String.eqb seg "")) segments) = Some seg
  <-> seg <> "" /\ exists before k, segments = (before ++ seg :: replicate k "")%list.
Proof.
  split.
  - induction segments as [|x l IH] using rev_ind; [discriminate|].
    rewrite List.filter_app. cbn [List.filter].
    destruct (String.eqb_spec x "") as [->|Hx]; cbn [negb].
    + rewrite app_nil_r. intros Hlast. destruct (IH Hlast) as (Hseg & before & k & ->).
      split; [exact Hseg|]. exists before, (S k).
      rewrite replicate_S_end, <- app_assoc. reflexivity.
    + rewrite last_snoc. intros Hlast. injection Hlast as <-.
      split; [exact Hx|]. exists l, 0%nat. reflexivity.
  - intros (Hseg & before & k & ->). rewrite List.filter_app. cbn [List.filter].
    apply String.eqb_neq in Hseg. rewrite Hseg. cbn [negb]. rewrite filter_blank.
    apply last_snoc.
Qed.

(** X29.  The name of the factor page.  A name that is given, is not
    "undefined" and is not blank is used as it is, whatever the path.
    Without such a name, the name is read from the path: the path is cut
    at every "/" (joining the segments with "/" gives back the path, and
    no segment holds a "/"), and the name is the decoding of the last
    segment that is not empty, the one that only empty segments follow;
    it is the empty string when there is no path or no such segment. *)
Theorem safeName_segments (name pathname : option string) :
  (usableName String_trim name = true ->
   safeName String_trim decodeURIComponent name pathname = name)
  /\ (usableName String_trim name = false ->
      safeName String_trim decodeURIComponent name pathname
      = match pathname with
        | None => Some ""
        | Some p =>
            match lastSegment p with
            | Some seg => decodeURIComponent seg
            | None => Some ""
            end
        end)
  /\ forall p,
       join_slash (split_slash p) = p
       /\ Forall (fun seg => hasSlash seg = false) (split_slash p)
       /\ forall seg,
            lastSegment p = Some seg
            <-> seg <> "" /\ exists before k, split_slash p = (before ++ seg :: replicate k "")%list.
Proof.
  split; [|split].
  - intros Hname. unfold safeName. rewrite Hname. reflexivity.
  - intros Hname. unfold safeName. rewrite Hname.
    destruct pathname as [p|]; [|reflexivity].
    destruct (String.eqb_spec p "") as [->|Hp]; reflexivity.
  - intros p. split; [apply join_split|]. split; [apply split_no_slash|].
    intros seg. apply last_filled.
Qed.
End FactorPageFacts.

Section FactorPageWitness.
Import FactorPage.
Local Open Scope string_scope.

Lemma safeName_segments_witness :
  safeName (fun s => s) Some (Some "undefined") (Some "/factor/Top300/") = Some "Top300".
Proof.
  rewrite (proj1 (proj2 (safeName_segments (fun s => s) Some
                           (Some "undefined") (Some "/factor/Top300/")))); reflexivity.
Defined.
End FactorPageWitness.

Section ManifestFacts.
Import Manifest.
Local Open Scope string_scope.
Variable String_trim : string -> string.
Variable Array_sort : list string -> list string.

Lemma nonBlank_names (items : list Json) :
  Forall (fun n => 0 < String.length (String_trim n)) (omap (nonBlank String_trim) items).
Proof.
  induction items as [|x rest IH]; [constructor|]. cbn [omap list_omap].
  destruct x as [|b|v|s|l|l]; cbn [nonBlank]; try exact IH.
  destruct (Nat.ltb 0 (String.length (String_trim s))) eqn:Hs; [|exact IH].
  constructor; [apply Nat.ltb_lt; exact Hs | exact IH].
Qed.

Lemma manifestNames_nonBlank (factors : option Json) (names : list string) :
  manifestNames String_trim factors = Some names ->
  Forall (fun n => 0 < String.length (String_trim n)) names.
Proof.
  unfold manifestNames. destruct factors as [v|]; [|intros [= <-]; constructor].
  destruct v as [|b|v|s|l|l]; cbn [truthy];
    try (intros [= <-]; constructor);
    try (destruct (_ : bool); intros H; [discriminate H | injection H as <-; constructor]).
  intros [= <-]. apply nonBlank_names.
Qed.

(** X30.  The pages and the list.  When the sort of the host permutes
    its input and [trim] leaves the empty string empty, a list of factors
    that the home page obtains from a manifest holds exactly the names for
    which [generateStaticParams] makes a page from the same manifest (each
    as often); every name of the list is a string that is not blank; and
    the page of every name other than "undefined" shows that name. *)
Theorem manifest_pages (response : option (option Json)) (names : list string) :
  (forall l, Array_sort l ≡ₚ l) -> String_trim "" = "" ->
  listFactorsFromGithub String_trim Array_sort response = Some names ->
  names ≡ₚ map name (generateStaticParams String_trim response)
  /\ Forall (fun n => 0 < String.length (String_trim n)) names
  /\ forall n pathname decodeURIComponent,
       n ∈ names -> n <> "undefined" ->
       FactorPage.safeName String_trim decodeURIComponent (Some n) pathname = Some n.
Proof.
  intros Hsort Htrim Hlist. unfold listFactorsFromGithub in Hlist.
  destruct response as [factors|]; [|discriminate Hlist]. cbn in Hlist.
  destruct (manifestNames String_trim factors) as [found|] eqn:Hfound; [|discriminate Hlist].
  cbn in Hlist. injection Hlist as <-.
  pose proof (manifestNames_nonBlank factors found Hfound) as Hfilled.
  assert (Hall : Forall (fun n => 0 < String.length (String_trim n)) (Array_sort found)).
  { eapply Permutation_Forall; [symmetry; apply Hsort | exact Hfilled]. }
  split; [|split; [exact Hall|]].
  - unfold generateStaticParams. rewrite Hfound. cbn [default].
    rewrite map_map, map_id. apply Hsort.
  - intros n pathname decodeURIComponent Hn Hundef.
    rewrite Forall_forall in Hall. specialize (Hall n Hn).
    unfold FactorPage.safeName, FactorPage.usableName.
    assert (Hne : n <> "") by (intros ->; rewrite Htrim in Hall; cbn in Hall; lia).
    apply String.eqb_neq in Hne, Hundef. rewrite Hne, Hundef.
    apply Nat.ltb_lt in Hall. rewrite Hall. reflexivity.
Qed.
End ManifestFacts.

Section ManifestWitness.
Import Manifest.
Local Open Scope string_scope.

Lemma manifest_pages_witness :
  let response := Some (Some (JArray [JString "Top300"; JNumber 1; JString ""; JString "PE_low"])) in
  ["Top300"; "PE_low"] ≡ₚ map name (generateStaticParams (fun s => s) response).
Proof.
  intros response.
  apply (manifest_pages (fun s => s) (fun l => l) response ["Top300"; "PE_low"]).
  - intros l. reflexivity.
  - reflexivity.
  - reflexivity.
Defined.
End ManifestWitness.

(** ** A return that is NaN *)

Section NaNFacts.
Import Binary64.
Local Open Scope float_scope.

Ltac nan_case spec :=
  apply Prim2SF_inj; rewrite spec;
  replace (Prim2SF nan) with S754_nan by reflexivity;
  try reflexivity;
  match goal with |- context [Prim2SF ?v] => destruct (Prim2SF v); reflexivity end.

Lemma nan_add_l (v : float) : nan + v = nan.
Proof. nan_case add_spec. Qed.

Lemma nan_add_r (v : float) : v + nan = nan.
Proof. nan_case add_spec. Qed.

Lemma nan_sub_l (v : float) : nan - v = nan.
Proof. nan_case sub_spec. Qed.

Lemma nan_sub_r (v : float) : v - nan = nan.
Proof. nan_case sub_spec. Qed.

Lemma nan_mul_l (v : float) : nan * v = nan.
Proof. nan_case mul_spec. Qed.

Lemma nan_mul_r (v : float) : v * nan = nan.
Proof. nan_case mul_spec. Qed.

Lemma nan_div_l (v : float) : nan / v = nan.
Proof. nan_case div_spec. Qed.

Lemma nan_div_r (v : float) : v / nan = nan.
Proof. nan_case div_spec. Qed.

Lemma nan_ltb_l (v : float) : (nan <? v) = false.
Proof. rewrite ltb_spec. replace (Prim2SF nan) with S754_nan by reflexivity. reflexivity. Qed.

Lemma nan_ltb_r (v : float) : (v <? nan) = false.
Proof.
  rewrite ltb_spec. replace (Prim2SF nan) with S754_nan by reflexivity.
  destruct (Prim2SF v); reflexivity.
Qed.

Section Engine.
Variable pow_approx : float -> float -> float.
Abbreviation engine := (binary64 pow_approx).

Lemma fold_add_nan (xs : list float) : fold_left PrimFloat.add xs nan = nan.
Proof. induction xs as [|v rest IH]; [reflexivity|]. cbn [fold_left]. rewrite nan_add_l. exact IH. Qed.

Lemma fold_add_has_nan (xs : list float) (a : float) :
  nan ∈ xs -> fold_left PrimFloat.add xs a = nan.
Proof.
  revert a. induction xs as [|v rest IH]; intros a Hin; [inversion Hin|].
  cbn [fold_left]. apply elem_of_cons in Hin as [<-|Hin].
  - rewrite nan_add_r. apply fold_add_nan.
  - apply (IH _ Hin).
Qed.

Lemma mean_nan (xs : list float) : nan ∈ xs -> mean (N := engine) xs = nan.
Proof.
  intros Hin. unfold mean, sum. cbn [num_add num_div binary64].
  rewrite (fold_add_has_nan xs _ Hin). apply nan_div_l.
Qed.

(** The annualized volatility of a series that holds a NaN is NaN. *)
Lemma annualizedVol_nan (xs : list float) (freq : float) :
  nan ∈ xs -> annualizedVol (N := engine) xs freq = nan.
Proof.
  intros Hin. unfold annualizedVol, sampleVariance, sumSquares.
  rewrite (mean_nan xs Hin). unfold sum. cbn [num_add num_sub num_mul num_div Math_pow Math_sqrt binary64].
  rewrite (fold_add_has_nan (map _ xs)).
  - rewrite nan_div_l, nan_mul_l. reflexivity.
  - apply list_elem_of_In, in_map_iff. exists nan.
    split; [rewrite nan_sub_l; reflexivity | apply list_elem_of_In; exact Hin].
Qed.

Lemma toCum_from_nan (more : list float) :
  toCum_from (N := engine) nan more = replicate (length more) nan.
Proof.
  induction more as [|r rest IH]; [reflexivity|].
  cbn [toCum_from length replicate num_mul num_add binary64]. rewrite nan_mul_l, IH. reflexivity.
Qed.

(** Once the value is NaN, no later step changes the drawdown. *)
Lemma drawdown_after_nan (more : list float) (st : DrawdownState) :
  dd_nav st = nan ->
  dd_maxdd (fold_left (drawdown_step (N := engine)) more st) = dd_maxdd st.
Proof.
  revert st. induction more as [|r rest IH]; intros st Hnav; [reflexivity|].
  cbn [fold_left]. rewrite IH.
  - unfold drawdown_step. cbn [dd_maxdd num_mul num_add num_sub num_div num_lt binary64].
    rewrite Hnav, nan_mul_l, nan_ltb_r, nan_div_l, nan_sub_l, nan_ltb_l. reflexivity.
  - unfold drawdown_step. cbn [dd_nav num_mul num_add binary64]. rewrite Hnav. apply nan_mul_l.
Qed.

(** X9.  A return that is NaN (as an empty slot of [ret] is in
    arithmetic).  On every engine, when a series holds a NaN, the
    annualized volatility of the table is NaN and the Sharpe ratio is not
    null but NaN; the cumulative curve is NaN from that return on; and the
    maximum drawdown silently ignores that return and all that follow it:
    it is the drawdown of the returns before the NaN. *)
Theorem nan_return (name : string) (rs more : list float) (rfAnnual freq : float) :
  let ret := (rs ++ nan :: more)%list in
  let row := calcMetricsFromDailyRet (N := engine) name ret rfAnnual freq in
  ann_vol row = nan
  /\ sharpe row = Some nan
  /\ maxdd row = maxDrawdownFromReturns (N := engine) rs
  /\ drop (length rs) (toCum (N := engine) ret) = replicate (S (length more)) nan.
Proof.
  intros ret row.
  assert (Hin : nan ∈ ret) by (apply elem_of_app; right; left).
  assert (Hdd : maxDrawdownFromReturns (N := engine) ret
                = maxDrawdownFromReturns (N := engine) rs).
  { unfold maxDrawdownFromReturns, ret. rewrite fold_left_app. cbn [fold_left].
    rewrite drawdown_after_nan.
    - unfold drawdown_step. cbn [dd_maxdd num_mul num_add num_sub num_div num_lt binary64].
      rewrite nan_add_r, nan_mul_r, nan_ltb_r, nan_div_l, nan_sub_l, nan_ltb_l. reflexivity.
    - unfold drawdown_step. cbn [dd_nav num_mul num_add binary64].
      rewrite nan_add_r. apply nan_mul_r. }
  assert (Hcurve : drop (length rs) (toCum (N := engine) ret)
                   = replicate (S (length more)) nan).
  { unfold toCum, ret. rewrite toCum_from_app.
    rewrite drop_app_length' by (symmetry; apply length_toCum_from).
    cbn [toCum_from replicate num_mul num_add binary64].
    rewrite nan_add_r, nan_mul_r, toCum_from_nan. reflexivity. }
  subst row. destruct ret as [|r rest] eqn:Hret.
  { subst ret. destruct rs; discriminate Hret. }
  split; [|split; [|split; [exact Hdd | exact Hcurve]]].
  - rewrite calc_ann_vol. apply (annualizedVol_nan _ freq Hin).
  - rewrite calc_sharpe. unfold annualizedExcessVol.
    assert (Hex : nan ∈ excess (N := engine) (r :: rest) rfAnnual freq).
    { unfold excess. apply list_elem_of_In, in_map_iff. exists nan.
      split; [apply nan_sub_l | apply list_elem_of_In; exact Hin]. }
    rewrite (annualizedVol_nan _ freq Hex).
    replace (num_eq (Number := engine) nan (lit (Number := engine) 0)) with false by reflexivity.
    cbn [num_div binary64]. rewrite nan_div_r. reflexivity.
Qed.
End Engine.
End NaNFacts.
